(** * Schema-driven multi-section form: model and properties

    A shallow embedding of the form orchestrator ([DynamicForm.tsx]), the
    field renderer's checkbox-group handler ([DynamicField.tsx]), the section
    controller's navigation controls ([FormSection.tsx]) and the login gate
    ([LoginForm.tsx]).

    Conventions.
    - A JavaScript string is a [string]; each character stands for one
      UTF-16 code unit below 256, so [String.length] is the [.length] of
      the source.
    - A JavaScript object used as a dictionary is a [gmap string _]; a
      missing key reads as [None] (the source's [undefined]).
    - Field identifiers are taken not to collide with the members every
      object inherits ([constructor], [toString], ...).
    - Length bounds are safe integers, of magnitude at most 2^53 - 1:
      these are exact as numbers and a template literal prints them in
      plain decimal ([safe_integer], [safe_bounds]); a number of
      magnitude 1e21 or more would be printed in exponent form.
    - A handler that can throw a [TypeError] returns an [option]; [None]
      is the exception.
    - React state is threaded explicitly: a handler maps the state of the
      render it closes over to the state of the next render, together
      with the list of outside effects it performs. *)

From Stdlib Require Import ZArith Ascii String.
From stdpp Require Import base option list strings gmap fin_maps pretty.

Local Open Scope string_scope.
Local Open Scope Z_scope.
Local Open Scope list_scope.

(** ** Data model *)

(** A field's current value: [string | string[] | boolean]. *)
Inductive Value : Type :=
  | VStr (s : string)
  | VArr (l : list string)
  | VBool (b : bool).

#[global] Instance Value_eq_dec : EqDecision Value.
Proof. solve_decision. Defined.

(** Modelled from the spec: the declarations of [types.ts] ([FormField],
    [FormSection], [FormResponse], [FormValues], [FormErrors], [User]) are
    not among the sources; the records below follow the spec's data model
    and the members the components read. *)
Record FieldOption : Type := mkOption {
  optValue : string;
  optLabel : string
}.

Record Validation : Type := mkValidation {
  message : string
}.

Record FormField : Type := mkField {
  fieldId : string;
  label : string;
  type : string;
  required : bool;
  minLength : option Z;
  maxLength : option Z;
  options : option (list FieldOption);
  validation : option Validation
}.

Record FormSection : Type := mkSection {
  sectionId : string;
  title : string;
  fields : list FormField
}.

Record FormResponse : Type := mkForm {
  formTitle : string;
  sections : list FormSection
}.

Abbreviation FormValues := (gmap string Value).
Abbreviation FormErrors := (gmap string string).

(** ** JavaScript truthiness of the values the components test *)

Definition truthy_string (s : string) : bool :=
  negb (String.eqb s "").

Definition truthy_number (n : option Z) : bool :=
  match n with
  | Some k => negb (k =? 0)
  | None => false
  end.

Definition truthy_value (v : option Value) : bool :=
  match v with
  | None => false
  | Some (VStr s) => truthy_string s
  | Some (VArr _) => true
  | Some (VBool b) => b
  end.

(** The integers that are exact as numbers and that [`${n}`] prints digit
    by digit: [Number.MIN_SAFE_INTEGER .. Number.MAX_SAFE_INTEGER]. *)
Definition safe_integer (n : Z) : Prop :=
  - (2 ^ 53 - 1) ≤ n ≤ 2 ^ 53 - 1.

(** [`${n}`] for a safe integer: its decimal digits, with a minus sign
    when negative. *)
Definition show_number (n : Z) : string := pretty n.

(** Both length bounds of a field, where set, are safe integers. *)
Definition safe_bounds (field : FormField) : Prop :=
  (∀ n, minLength field = Some n → safe_integer n) ∧
  (∀ n, maxLength field = Some n → safe_integer n).

Definition str_length (s : string) : Z := Z.of_nat (String.length s).

(** ** Validation engine ([DynamicForm.tsx]) *)

(** [field.validation?.message || 'This field is required'] *)
Definition required_message (field : FormField) : string :=
  match validation field with
  | Some v => if truthy_string (message v) then message v
              else "This field is required"
  | None => "This field is required"
  end.

(** [value === undefined || value === '' ||
     (Array.isArray(value) && value.length === 0)] *)
Definition is_missing (value : option Value) : bool :=
  match value with
  | None => true
  | Some (VStr s) => String.eqb s ""
  | Some (VArr l) => (Z.of_nat (length l) =? 0)
  | Some (VBool _) => false
  end.

(** [value === undefined || value === ''] *)
Definition is_blank (value : option Value) : bool :=
  match value with
  | None => true
  | Some (VStr s) => String.eqb s ""
  | Some _ => false
  end.

(** [field.minLength && typeof value === 'string' &&
     value.length < field.minLength]: the bound that is violated, if any. *)
Definition below_min (field : FormField) (value : option Value) : option Z :=
  match minLength field, value with
  | Some n, Some (VStr s) =>
      if truthy_number (Some n) && (str_length s <? n) then Some n else None
  | _, _ => None
  end.

(** [field.maxLength && typeof value === 'string' &&
     value.length > field.maxLength] *)
Definition above_max (field : FormField) (value : option Value) : option Z :=
  match maxLength field, value with
  | Some n, Some (VStr s) =>
      if truthy_number (Some n) && (str_length s >? n) then Some n else None
  | _, _ => None
  end.

Definition validateField (formValues : FormValues) (field : FormField) : string :=
  let value := formValues !! fieldId field in
  if required field && is_missing value then required_message field
  else if is_blank value then ""
  else match below_min field value with
  | Some n => "Minimum length is " +:+ show_number n +:+ " characters"
  | None =>
    match above_max field value with
    | Some n => "Maximum length is " +:+ show_number n +:+ " characters"
    | None => ""
    end
  end.

(** ** Orchestrator state ([DynamicForm.tsx]) *)

Record FormState : Type := mkState {
  formData : option FormResponse;
  isLoading : bool;
  error : option string;
  currentSectionIndex : nat;
  formValues : FormValues;
  formErrors : FormErrors;
  showSubmissionModal : bool
}.

Definition set_formData (d : option FormResponse) (st : FormState) : FormState :=
  mkState d (isLoading st) (error st) (currentSectionIndex st)
          (formValues st) (formErrors st) (showSubmissionModal st).
Definition set_isLoading (b : bool) (st : FormState) : FormState :=
  mkState (formData st) b (error st) (currentSectionIndex st)
          (formValues st) (formErrors st) (showSubmissionModal st).
Definition set_error (e : option string) (st : FormState) : FormState :=
  mkState (formData st) (isLoading st) e (currentSectionIndex st)
          (formValues st) (formErrors st) (showSubmissionModal st).
Definition set_currentSectionIndex (i : nat) (st : FormState) : FormState :=
  mkState (formData st) (isLoading st) (error st) i
          (formValues st) (formErrors st) (showSubmissionModal st).
Definition set_formValues (v : FormValues) (st : FormState) : FormState :=
  mkState (formData st) (isLoading st) (error st) (currentSectionIndex st)
          v (formErrors st) (showSubmissionModal st).
Definition set_formErrors (e : FormErrors) (st : FormState) : FormState :=
  mkState (formData st) (isLoading st) (error st) (currentSectionIndex st)
          (formValues st) e (showSubmissionModal st).
Definition set_showSubmissionModal (b : bool) (st : FormState) : FormState :=
  mkState (formData st) (isLoading st) (error st) (currentSectionIndex st)
          (formValues st) (formErrors st) b.

(** What a handler does outside the component's own state. *)
Inductive Effect : Type :=
  | GetForm (rollNumber : string)
  | ScrollToTop
  | ConsoleLog (text : string) (values : FormValues)
  | ConsoleError (text : string).

(** The [useState] initialisers. *)
Definition initialState : FormState :=
  mkState None true None 0%nat ∅ ∅ false.

(** *** Value-map initialisation (the body of [fetchFormData]) *)

Definition is_checkbox (field : FormField) : bool :=
  String.eqb (type field) "checkbox".

(** An array is truthy whatever its length: [field.options] holds exactly
    when the member is present. *)
Definition has_options (field : FormField) : bool :=
  match options field with Some _ => true | None => false end.

Definition initialValue (field : FormField) : Value :=
  if is_checkbox field && has_options field then VArr []
  else if is_checkbox field && negb (has_options field) then VBool false
  else VStr "".

Definition init_field (acc : FormValues) (field : FormField) : FormValues :=
  <[fieldId field := initialValue field]> acc.

Definition init_section (acc : FormValues) (section : FormSection) : FormValues :=
  foldl init_field acc (fields section).

Definition initialValues (data : FormResponse) : FormValues :=
  foldl init_section ∅ (sections data).

(** [getForm] either resolves with the schema or rejects. *)
Inductive FetchResult : Type :=
  | Resolved (data : FormResponse)
  | Rejected.

(** The effect on mount issues the request ... *)
Definition fetchFormData_start (rollNumber : string) (st : FormState)
  : FormState * list Effect :=
  (set_isLoading true st, [GetForm rollNumber]).

(** ... and its continuation runs when the request settles. *)
Definition fetchFormData_settle (r : FetchResult) (st : FormState)
  : FormState * list Effect :=
  match r with
  | Resolved data =>
      (set_isLoading false
         (set_formValues (initialValues data) (set_formData (Some data) st)), [])
  | Rejected =>
      (set_isLoading false
         (set_error (Some "Failed to load the form. Please try again later.") st),
       [ConsoleError "Error fetching form:"])
  end.

(** *** Field edits *)

Definition handleFieldChange (fid : string) (value : Value) (st : FormState)
  : FormState :=
  let st1 := set_formValues (<[fid := value]> (formValues st)) st in
  match formErrors st !! fid with
  | Some msg =>
      if truthy_string msg then set_formErrors (delete fid (formErrors st1)) st1
      else st1
  | None => st1
  end.

(** *** Section validation *)

Definition validate_step (values : FormValues) (acc : FormErrors * bool)
    (field : FormField) : FormErrors * bool :=
  let errorMessage := validateField values field in
  if truthy_string errorMessage
  then (<[fieldId field := errorMessage]> (fst acc), false)
  else acc.

Definition validate_fields (values : FormValues) (fs : list FormField)
  : FormErrors * bool :=
  foldl (validate_step values) (∅, true) fs.

(** [None] is the [TypeError] raised by [section.fields] when
    [sections[sectionIndex]] is [undefined]. *)
Definition validateSection (sectionIndex : nat) (st : FormState)
  : option (bool * FormState) :=
  match formData st with
  | None => Some (false, st)
  | Some data =>
      match sections data !! sectionIndex with
      | None => None
      | Some section =>
          let '(newErrors, isValid) := validate_fields (formValues st) (fields section) in
          Some (isValid, set_formErrors newErrors st)
      end
  end.

(** *** Navigation *)

Definition handlePrevious (st : FormState) : FormState * list Effect :=
  if (0 <? Z.of_nat (currentSectionIndex st))
  then (set_currentSectionIndex (currentSectionIndex st - 1)%nat st, [])
  else (st, []).

Definition handleNext (st : FormState) : option (FormState * list Effect) :=
  match formData st with
  | None => Some (st, [])
  | Some data =>
      match validateSection (currentSectionIndex st) st with
      | None => None
      | Some (isValid, st1) =>
          if isValid &&
             (Z.of_nat (currentSectionIndex st) <? Z.of_nat (length (sections data)) - 1)
          then Some (set_currentSectionIndex (currentSectionIndex st + 1)%nat st1,
                     [ScrollToTop])
          else Some (st1, [])
      end
  end.

Definition handleSubmit (st : FormState) : option (FormState * list Effect) :=
  match formData st with
  | None => Some (st, [])
  | Some data =>
      match validateSection (currentSectionIndex st) st with
      | None => None
      | Some (isValid, st1) =>
          if isValid
          then Some (set_showSubmissionModal true st1,
                     [ConsoleLog "Form submitted with values:" (formValues st)])
          else Some (st1, [])
      end
  end.

Definition closeSubmissionModal (st : FormState) : FormState :=
  set_showSubmissionModal false st.

(** *** Summary view ([renderSubmissionModal]) *)

(** [Array.isArray(value) ? value.join(', ')
     : typeof value === 'boolean' ? (value ? 'Yes' : 'No') : value || '-'] *)
Definition formatValue (value : option Value) : string :=
  match value with
  | Some (VArr l) => String.concat ", " l
  | Some (VBool b) => if b then "Yes" else "No"
  | Some (VStr s) => if truthy_string s then s else "-"
  | None => "-"
  end.

Record SummaryRow : Type := mkRow {
  rowLabel : string;
  rowText : string
}.

Record SummarySection : Type := mkSummary {
  summaryTitle : string;
  summaryRows : list SummaryRow
}.

Definition summary_row (values : FormValues) (field : FormField) : SummaryRow :=
  mkRow (label field) (formatValue (values !! fieldId field)).

Definition summary_section (values : FormValues) (section : FormSection)
  : SummarySection :=
  mkSummary (title section) (map (summary_row values) (fields section)).

Definition renderSubmissionModal (st : FormState) : option (list SummarySection) :=
  match formData st with
  | None => None
  | Some data => Some (map (summary_section (formValues st)) (sections data))
  end.

(** ** Section controller ([FormSection.tsx]) *)

Record FieldProps : Type := mkFieldProps {
  propField : FormField;
  propValue : Value;
  propError : option string
}.

Inductive PrimaryButton : Type := NextButton | SubmitButton.

Record SectionView : Type := mkSectionView {
  viewTitle : string;
  viewPosition : Z * Z;
  viewFields : list FieldProps;
  previousDisabled : bool;
  primaryButton : PrimaryButton
}.

(** [values[field.fieldId] ||
     (field.type === 'checkbox' && !field.options ? false
      : field.options ? [] : '')] *)
Definition displayedValue (values : FormValues) (field : FormField) : Value :=
  match values !! fieldId field with
  | Some v =>
      if truthy_value (Some v) then v
      else if is_checkbox field && negb (has_options field) then VBool false
      else if has_options field then VArr [] else VStr ""
  | None =>
      if is_checkbox field && negb (has_options field) then VBool false
      else if has_options field then VArr [] else VStr ""
  end.

Definition FormSection_render (section : FormSection) (values : FormValues)
    (errors : FormErrors) (currentIndex : nat) (totalSections : nat)
    (isLast : bool) : SectionView :=
  mkSectionView
    (title section)
    (Z.of_nat currentIndex + 1, Z.of_nat totalSections)
    (map (fun field =>
            mkFieldProps field (displayedValue values field)
                         (errors !! fieldId field))
         (fields section))
    (Z.of_nat currentIndex =? 0)
    (if isLast then SubmitButton else NextButton).

(** ** What [DynamicForm] returns for a state *)

Inductive View : Type :=
  | LoadingView
  | ErrorView (text : string)
  | NullView
  | FormView (heading : string) (section : SectionView)
             (modal : option (list SummarySection)).

(** [None]: [FormSection] reads [section.title] of an [undefined] section. *)
Definition render_form (st : FormState) : option View :=
  match formData st with
  | None => Some NullView
  | Some data =>
      match sections data !! currentSectionIndex st with
      | None => None
      | Some section =>
          Some (FormView (formTitle data)
            (FormSection_render section (formValues st) (formErrors st)
               (currentSectionIndex st) (length (sections data))
               (Z.of_nat (currentSectionIndex st) =?
                  Z.of_nat (length (sections data)) - 1))
            (if showSubmissionModal st then renderSubmissionModal st else None))
      end
  end.

Definition render (st : FormState) : option View :=
  if isLoading st then Some LoadingView
  else match error st with
  | Some text =>
      if truthy_string text then Some (ErrorView text) else render_form st
  | None => render_form st
  end.

(** ** Field renderer ([DynamicField.tsx]) *)

(** [currentValues.includes(optionValue)
      ? currentValues.filter(v => v !== optionValue)
      : [...currentValues, optionValue]] *)
Definition toggle_option (currentValues : list string) (optionValue : string)
  : list string :=
  if bool_decide (optionValue ∈ currentValues)
  then filter (fun v => v ≠ optionValue) currentValues
  else currentValues ++ [optionValue].

(** [String.prototype.includes]. *)
Definition str_includes (s t : string) : bool :=
  match String.index 0 t s with Some _ => true | None => false end.

Fixpoint code_units (s : string) : list string :=
  match s with
  | EmptyString => []
  | String c s' => String c EmptyString :: code_units s'
  end.

(** [(value as string[]) || []] trusts the cast. A falsy value becomes the
    empty sequence; [true] has no [includes] and a string has no [filter],
    so those calls throw; a non-empty string that does not contain the
    option is spread into its code units. *)
Definition handleCheckboxGroupChange (value : Value) (optionValue : string)
  : option (list string) :=
  match value with
  | VArr currentValues => Some (toggle_option currentValues optionValue)
  | VBool false => Some (toggle_option [] optionValue)
  | VBool true => None
  | VStr s =>
      if truthy_string s then
        if str_includes s optionValue then None
        else Some (code_units s ++ [optionValue])
      else Some (toggle_option [] optionValue)
  end.

(** Ticking one box of a checkbox group, as the orchestrator sees it. *)
Definition toggle_field (field : FormField) (optionValue : string)
    (st : FormState) : option FormState :=
  newValues ← handleCheckboxGroupChange
                 (displayedValue (formValues st) field) optionValue;
  Some (handleFieldChange (fieldId field) (VArr newValues) st).

(** ** Events of the form screen *)

Inductive Event : Type :=
  | Settle (r : FetchResult)
  | FieldChange (fid : string) (value : Value)
  | Previous
  | Next
  | Submit
  | CloseModal.

Definition step (ev : Event) (st : FormState) : option (FormState * list Effect) :=
  match ev with
  | Settle r => Some (fetchFormData_settle r st)
  | FieldChange fid value => Some (handleFieldChange fid value st, [])
  | Previous => Some (handlePrevious st)
  | Next => handleNext st
  | Submit => handleSubmit st
  | CloseModal => Some (closeSubmissionModal st, [])
  end.

(** States the screen can be in: from the initial state, any sequence of
    events whose handler does not throw. *)
Inductive reachable : FormState → Prop :=
  | reach_init : reachable initialState
  | reach_step ev st st' effects :
      reachable st → step ev st = Some (st', effects) → reachable st'.

(** Every message in the error map is non-empty. *)
Definition errors_nonempty (st : FormState) : Prop :=
  ∀ fid text, formErrors st !! fid = Some text → text ≠ "".

(** ** Login gate ([LoginForm.tsx], [api.ts]) *)

Module Login.

Record User : Type := mkUser {
  rollNumber : string;
  name : string
}.

Record State : Type := mkLogin {
  user : User;
  isLoading : bool;
  error : option string
}.

Definition set_isLoading (b : bool) (st : State) : State :=
  mkLogin (user st) b (error st).
Definition set_error (e : option string) (st : State) : State :=
  mkLogin (user st) (isLoading st) e.

Definition initialState : State := mkLogin (mkUser "" "") false None.

(** White space and line terminators among the code units below 256:
    tab, line feed, vertical tab, form feed, carriage return, space and
    no-break space. *)
Definition is_whitespace (c : ascii) : bool :=
  let n := nat_of_ascii c in
  (n =? 9)%nat || (n =? 10)%nat || (n =? 11)%nat || (n =? 12)%nat ||
  (n =? 13)%nat || (n =? 32)%nat || (n =? 160)%nat.

Fixpoint trimStart (s : string) : string :=
  match s with
  | EmptyString => EmptyString
  | String c s' => if is_whitespace c then trimStart s' else s
  end.

Fixpoint trimEnd (s : string) : string :=
  match s with
  | EmptyString => EmptyString
  | String c s' =>
      let t := trimEnd s' in
      if is_whitespace c && String.eqb t "" then EmptyString else String c t
  end.

(** [String.prototype.trim] *)
Definition trim (s : string) : string := trimEnd (trimStart s).

(** The resolved value of [createUser]. *)
Record ApiResult : Type := mkResult {
  success : bool;
  message : string
}.

(** What [await response.json()] and [data.message] make of the body of
    a response. The body is unreadable when [response.json()] rejects
    (it is empty or not JSON) or when it is the JSON [null], whose
    [message] cannot be read: either way an [Error] is thrown, with the
    message given. Otherwise the body is parsed, and [data.message] is
    its string member [message], if it has one. *)
Inductive Body : Type :=
  | Unreadable (reason : string)
  | Parsed (text : option string).

(** How the request of [createUser] ends: a response with its status and
    its body, or [fetch] itself rejecting, with the message of the
    [Error] thrown, if it is one. *)
Inductive HttpOutcome : Type :=
  | Responded (ok : bool) (body : Body)
  | Failed (reason : option string).

Definition or_else (m : option string) (fallback : string) : string :=
  match m with
  | Some text => if truthy_string text then text else fallback
  | None => fallback
  end.

(** The body is read inside the [try], before the status is tested: an
    unreadable body ends in the [catch] whatever the status. *)
Definition createUser_settle (o : HttpOutcome) : ApiResult :=
  match o with
  | Responded _ (Unreadable reason) => mkResult false reason
  | Responded true (Parsed text) =>
      mkResult true (or_else text "User created successfully")
  | Responded false (Parsed text) =>
      mkResult false (or_else text "Failed to create user")
  | Failed (Some reason) => mkResult false reason
  | Failed None => mkResult false "An unknown error occurred"
  end.

(** The part of [handleSubmit] after [await createUser(user)]: the new
    state and the argument of [onLoginSuccess], if it is called. [None]
    as a result stands for a rejected promise. *)
Definition handleSubmit_resume (u : User) (r : option ApiResult) (st : State)
  : State * option User :=
  match r with
  | Some result =>
      if success result then (set_isLoading false st, Some u)
      else (set_isLoading false (set_error (Some (message result)) st), None)
  | None =>
      (set_isLoading false
         (set_error (Some "An error occurred during login. Please try again.") st),
       None)
  end.

(** [handleSubmit] either returns at once or suspends on the one call of
    [createUser]. *)
Inductive Outcome : Type :=
  | Returned (st : State)
  | Awaiting (st : State) (request : User)
             (resume : option ApiResult → State → State * option User).

Definition handleSubmit (st : State) : Outcome :=
  let st0 := set_error None st in
  if negb (truthy_string (trim (rollNumber (user st)))) ||
     negb (truthy_string (trim (name (user st))))
  then Returned (set_error (Some "Both Roll Number and Name are required") st0)
  else Awaiting (set_isLoading true st0) (user st) (handleSubmit_resume (user st)).

(** The requests a submission sends to [createUser]. *)
Definition createUser_calls (o : Outcome) : list User :=
  match o with
  | Returned _ => []
  | Awaiting _ request _ => [request]
  end.

Definition state_after (o : Outcome) : State :=
  match o with
  | Returned st => st
  | Awaiting st _ _ => st
  end.

End Login.

(** ** The per-field rule, as a relation

    The five steps of the rule, in order. The upper bound counts only when
    it is non-zero and the custom message only when it is non-empty; a
    lower bound of zero can never be violated, so it needs no such
    proviso. *)

Definition Missing (value : option Value) : Prop :=
  value = None ∨ value = Some (VStr "") ∨ value = Some (VArr []).

Definition Blank (value : option Value) : Prop :=
  value = None ∨ value = Some (VStr "").

Definition CustomMessage (field : FormField) (text : string) : Prop :=
  ∃ v, validation field = Some v ∧ message v = text ∧ text ≠ "".

Definition TooShort (field : FormField) (value : option Value) (n : Z) : Prop :=
  ∃ s, value = Some (VStr s) ∧ minLength field = Some n ∧ str_length s < n.

Definition TooLong (field : FormField) (value : option Value) (n : Z) : Prop :=
  ∃ s, value = Some (VStr s) ∧ maxLength field = Some n ∧ n ≠ 0 ∧ str_length s > n.

Definition RequiredMissing (field : FormField) (value : option Value) : Prop :=
  required field = true ∧ Missing value.

Inductive field_rule (field : FormField) (value : option Value) : string → Prop :=
  | rule_required_custom text :
      RequiredMissing field value → CustomMessage field text →
      field_rule field value text
  | rule_required_default :
      RequiredMissing field value → (∀ text, ¬ CustomMessage field text) →
      field_rule field value "This field is required"
  | rule_blank :
      ¬ RequiredMissing field value → Blank value →
      field_rule field value ""
  | rule_min n :
      ¬ RequiredMissing field value → ¬ Blank value → TooShort field value n →
      field_rule field value ("Minimum length is " +:+ show_number n +:+ " characters")
  | rule_max n :
      ¬ RequiredMissing field value → ¬ Blank value →
      (∀ k, ¬ TooShort field value k) → TooLong field value n →
      field_rule field value ("Maximum length is " +:+ show_number n +:+ " characters")
  | rule_pass :
      ¬ RequiredMissing field value → ¬ Blank value →
      (∀ k, ¬ TooShort field value k) → (∀ k, ¬ TooLong field value k) →
      field_rule field value "".

(** The rule read literally: a bound counts as soon as it is set and a
    custom message as soon as it is present. *)
Definition below_min_literal (field : FormField) (value : option Value)
  : option Z :=
  match minLength field, value with
  | Some n, Some (VStr s) => if str_length s <? n then Some n else None
  | _, _ => None
  end.

Definition above_max_literal (field : FormField) (value : option Value)
  : option Z :=
  match maxLength field, value with
  | Some n, Some (VStr s) => if str_length s >? n then Some n else None
  | _, _ => None
  end.

Definition validateField_literal (formValues : FormValues) (field : FormField)
  : string :=
  let value := formValues !! fieldId field in
  if required field && is_missing value then
    match validation field with
    | Some v => message v
    | None => "This field is required"
    end
  else if is_blank value then ""
  else match below_min_literal field value with
  | Some n => "Minimum length is " +:+ show_number n +:+ " characters"
  | None =>
    match above_max_literal field value with
    | Some n => "Maximum length is " +:+ show_number n +:+ " characters"
    | None => ""
    end
  end.

(** ** Sample schema: two sections, the first with one required text field
    [name] of minimum length 2. *)

Definition f_name : FormField :=
  mkField "name" "Name" "text" true (Some 2) None None None.

Definition f_skills : FormField :=
  mkField "skills" "Skills" "checkbox" false None None
    (Some [mkOption "js" "JavaScript"; mkOption "ml" "OCaml"]) None.

Definition f_agree : FormField :=
  mkField "agree" "I agree" "checkbox" true None None None None.

Definition f_bio : FormField :=
  mkField "bio" "About you" "textarea" false None (Some 5) None
    (Some (mkValidation "Tell us something")).

Definition sample_form : FormResponse :=
  mkForm "Registration"
    [ mkSection "s1" "Identity" [f_name];
      mkSection "s2" "Details" [f_skills; f_agree; f_bio] ].

Fixpoint run (events : list Event) (st : FormState) : option FormState :=
  match events with
  | [] => Some st
  | ev :: rest =>
      match step ev st with
      | Some (st', _) => run rest st'
      | None => None
      end
  end.

Definition state_of (events : list Event) : FormState :=
  default initialState (run events initialState).

(** The schema arrives, the user types "A" as the name and presses Next. *)
Definition short_name_events : list Event :=
  [Settle (Resolved sample_form); FieldChange "name" (VStr "A"); Next].

(** The schema arrives, the user types "Al" and presses Next, ticks the
    agreement and presses Submit. *)
Definition complete_events : list Event :=
  [Settle (Resolved sample_form); FieldChange "name" (VStr "Al"); Next;
   FieldChange "agree" (VBool true)].

(** Every field of the schema, in the order the initialisation visits
    them. *)
Definition all_fields (data : FormResponse) : list FormField :=
  concat (map fields (sections data)).

(** ** Field controls ([renderField] and [handleChange] of
    [DynamicField.tsx]) *)

(** The members of [e.target] that [handleChange] reads. *)
Record InputEvent : Type := mkInput {
  targetChecked : bool;
  targetValue : string
}.

(** [field.type === 'checkbox' ? onChange(id, target.checked)
                               : onChange(id, target.value)] *)
Definition handleChange (field : FormField) (e : InputEvent) : string * Value :=
  if is_checkbox field then (fieldId field, VBool (targetChecked e))
  else (fieldId field, VStr (targetValue e)).

(** [(value as string[])?.includes(option.value)]: a sequence is searched
    for the element, a string for the substring, and a boolean has no
    [includes], so the call throws. *)
Definition includes_option (value : Value) (optionValue : string) : option bool :=
  match value with
  | VArr l => Some (bool_decide (optionValue ∈ l))
  | VStr s => Some (str_includes s optionValue)
  | VBool _ => None
  end.

(** [value === option.value] *)
Definition is_selected (value : Value) (optionValue : string) : bool :=
  match value with
  | VStr s => String.eqb s optionValue
  | _ => false
  end.

(** [field.options?.map(...)]: nothing when the member is absent. *)
Definition option_values (field : FormField) : list string :=
  match options field with
  | Some opts => map optValue opts
  | None => []
  end.

Inductive Control : Type :=
  | InputControl (inputType : string) (value : Value)
  | TextAreaControl (value : Value)
  | SelectControl (value : Value) (choices : list string)
  | RadioControl (buttons : list (string * bool))
  | CheckboxGroupControl (boxes : list (string * bool))
  | CheckboxControl (checked : Value)
  | UnsupportedControl (typeName : string).

Fixpoint render_boxes (value : Value) (optionValues : list string)
  : option (list (string * bool)) :=
  match optionValues with
  | [] => Some []
  | o :: rest =>
      match includes_option value o with
      | None => None
      | Some checked =>
          match render_boxes value rest with
          | None => None
          | Some boxes => Some ((o, checked) :: boxes)
          end
      end
  end.

(** The [switch] of [renderField]; [None] is the [TypeError] of
    [includes] on a boolean. *)
Definition renderField (field : FormField) (value : Value) : option Control :=
  if String.eqb (type field) "text" || String.eqb (type field) "tel" ||
     String.eqb (type field) "email" || String.eqb (type field) "date"
  then Some (InputControl (type field) value)
  else if String.eqb (type field) "textarea" then Some (TextAreaControl value)
  else if String.eqb (type field) "dropdown"
  then Some (SelectControl value ("" :: option_values field))
  else if String.eqb (type field) "radio"
  then Some (RadioControl
               (map (fun o => (o, is_selected value o)) (option_values field)))
  else if String.eqb (type field) "checkbox" then
    match options field with
    | Some opts =>
        match render_boxes value (map optValue opts) with
        | Some boxes => Some (CheckboxGroupControl boxes)
        | None => None
        end
    | None => Some (CheckboxControl value)
    end
  else Some (UnsupportedControl (type field)).

(** What the user can do to a control. *)
Inductive Gesture : Type :=
  | Enter (text : string)
  | Choose (choice : string)
  | Flip (checked : bool)
  | Tick (optionValue : string).

(** The [onChange] call a gesture leads to, if the control offers the
    gesture and its handler does not throw. *)
Definition fieldGesture (field : FormField) (value : Value) (g : Gesture)
  : option (string * Value) :=
  match renderField field value, g with
  | Some (InputControl _ _), Enter text
  | Some (TextAreaControl _), Enter text =>
      Some (handleChange field (mkInput false text))
  | Some (SelectControl _ choices), Choose c =>
      if bool_decide (c ∈ choices)
      then Some (handleChange field (mkInput false c)) else None
  | Some (RadioControl buttons), Choose c =>
      if bool_decide (c ∈ map fst buttons)
      then Some (handleChange field (mkInput true c)) else None
  | Some (CheckboxControl _), Flip checked =>
      Some (handleChange field (mkInput checked "on"))
  | Some (CheckboxGroupControl boxes), Tick o =>
      if bool_decide (o ∈ map fst boxes)
      then match handleCheckboxGroupChange value o with
           | Some newValues => Some (fieldId field, VArr newValues)
           | None => None
           end
      else None
  | _, _ => None
  end.

(** The shape of value each kind of field works with. *)
Definition well_shaped (field : FormField) (value : Value) : Prop :=
  if is_checkbox field then
    match options field with
    | Some opts =>
        ∃ l, value = VArr l ∧ NoDup l ∧ ∀ o, o ∈ l → o ∈ map optValue opts
    | None => ∃ b, value = VBool b
    end
  else ∃ s, value = VStr s.

(** ** Sessions *)

(** The state once the schema has arrived, and once the request failed. *)
Definition loaded (data : FormResponse) : FormState :=
  fst (fetchFormData_settle (Resolved data) initialState).

Definition failed : FormState :=
  fst (fetchFormData_settle Rejected initialState).

Definition is_settle (ev : Event) : bool :=
  match ev with Settle _ => true | _ => false end.

Definition is_press (ev : Event) : bool :=
  match ev with
  | Previous | Next | Submit | CloseModal => true
  | _ => false
  end.

(** The request is sent once per mount: after the schema has arrived the
    screen sees only edits and button presses. *)
Inductive session (data : FormResponse) : FormState → Prop :=
  | session_loaded : session data (loaded data)
  | session_step ev st st' effects :
      session data st → is_settle ev = false →
      step ev st = Some (st', effects) → session data st'.

(** A session in which every edit comes from a control of the section on
    screen. *)
Inductive ui_session (data : FormResponse) : FormState → Prop :=
  | ui_loaded : ui_session data (loaded data)
  | ui_gesture st section field g fid value :
      ui_session data st →
      sections data !! currentSectionIndex st = Some section →
      field ∈ fields section →
      fieldGesture field (displayedValue (formValues st) field) g
        = Some (fid, value) →
      ui_session data (handleFieldChange fid value st)
  | ui_press ev st st' effects :
      ui_session data st → is_press ev = true →
      step ev st = Some (st', effects) → ui_session data st'.

(** The keys of an error map all belong to the fields of one section. *)
Definition errors_within (data : FormResponse) (errors : FormErrors) : Prop :=
  errors = ∅ ∨
  ∃ section, section ∈ sections data ∧
    ∀ fid, is_Some (errors !! fid) → fid ∈ map fieldId (fields section).

(** ** A whole login attempt *)

Module LoginSession.

(** [setUser(prev => ({ ...prev, [name]: value }))] for the two inputs of
    the form, whose [name] attributes are the members of [User]. *)
Definition handleChange (inputName value : string) (st : Login.State)
  : Login.State :=
  if String.eqb inputName "rollNumber"
  then Login.mkLogin (Login.mkUser value (Login.name (Login.user st)))
         (Login.isLoading st) (Login.error st)
  else if String.eqb inputName "name"
  then Login.mkLogin (Login.mkUser (Login.rollNumber (Login.user st)) value)
         (Login.isLoading st) (Login.error st)
  else st.

(** [handleSubmit] run to its end against a request that ends as [o],
    with nothing typed while the request is pending: [createUser] turns
    every ending into a resolved result. *)
Definition submit (st : Login.State) (o : Login.HttpOutcome)
  : Login.State * option Login.User :=
  match Login.handleSubmit st with
  | Login.Returned st' => (st', None)
  | Login.Awaiting st' _ resume => resume (Some (Login.createUser_settle o)) st'
  end.

Definition all_whitespace (s : string) : Prop :=
  ∀ c, c ∈ list_ascii_of_string s → Login.is_whitespace c = true.

End LoginSession.

(** A session through the controls: the name is typed, "Next" is
    pressed and the first skill is ticked. *)
Definition named_state : FormState :=
  handleFieldChange "name" (VStr "Al") (loaded sample_form).

Definition second_section_state : FormState :=
  set_currentSectionIndex 1 (set_formErrors ∅ named_state).

Definition ticked_state : FormState :=
  handleFieldChange "skills" (VArr ["js"]) second_section_state.

(** The summary format read literally: every empty value, the empty
    sequence included, is a dash, and a sequence is joined by a comma. *)
Definition formatValue_literal (value : option Value) : string :=
  match value with
  | Some (VArr []) => "-"
  | Some (VArr l) => String.concat "," l
  | Some (VBool b) => if b then "Yes" else "No"
  | Some (VStr s) => if truthy_string s then s else "-"
  | None => "-"
  end.

(** ** The whole screen: [DynamicForm] with its [DynamicField] children *)

(** The controls of the fields of a section view; [None] when drawing
    one of them throws. *)
Definition render_controls (view : SectionView) : option (list Control) :=
  mapM (λ props, renderField (propField props) (propValue props))
       (viewFields view).

(** The view together with the controls of its fields. *)
Definition render_screen (st : FormState) : option (View * list Control) :=
  match render st with
  | Some (FormView heading view modal) =>
      match render_controls view with
      | Some controls => Some (FormView heading view modal, controls)
      | None => None
      end
  | Some other => Some (other, [])
  | None => None
  end.

(** * Properties *)

Section Truthiness.

Lemma truthy_string_true s : truthy_string s = true ↔ s ≠ "".
Proof.
  unfold truthy_string. destruct (String.eqb_spec s ""); simpl; split;
    congruence.
Qed.

Lemma truthy_string_false s : truthy_string s = false ↔ s = "".
Proof.
  unfold truthy_string. destruct (String.eqb_spec s ""); simpl; split;
    congruence.
Qed.

Lemma is_missing_true value : is_missing value = true ↔ Missing value.
Proof.
  unfold Missing. destruct value as [[s|l|b]|]; simpl.
  - rewrite String.eqb_eq. split; [intros ->; auto|].
    intros [?|[?|?]]; congruence.
  - destruct l; simpl; split; auto; try discriminate.
    intros [?|[?|?]]; congruence.
  - split; [discriminate|]. intros [?|[?|?]]; congruence.
  - split; auto.
Qed.

Lemma is_blank_true value : is_blank value = true ↔ Blank value.
Proof.
  unfold Blank. destruct value as [[s|l|b]|]; simpl.
  - rewrite String.eqb_eq. split; [intros ->; auto|].
    intros [?|?]; congruence.
  - split; [discriminate|]. intros [?|?]; congruence.
  - split; [discriminate|]. intros [?|?]; congruence.
  - split; auto.
Qed.

Lemma required_missing_true field value :
  required field && is_missing value = true ↔ RequiredMissing field value.
Proof.
  unfold RequiredMissing. rewrite andb_true_iff, is_missing_true. tauto.
Qed.

Lemma required_message_custom field text :
  CustomMessage field text → required_message field = text.
Proof.
  intros (v & Hv & Hm & Hne). unfold required_message. rewrite Hv, Hm.
  apply truthy_string_true in Hne. by rewrite Hne.
Qed.

Lemma required_message_default field :
  (∀ text, ¬ CustomMessage field text) →
  required_message field = "This field is required".
Proof.
  intros Hno. unfold required_message.
  destruct (validation field) as [v|] eqn:Hv; [|done].
  destruct (truthy_string (message v)) eqn:Ht; [|done].
  exfalso. apply (Hno (message v)). exists v.
  by rewrite truthy_string_true in Ht.
Qed.

Lemma custom_message_dec field :
  (∃ text, CustomMessage field text) ∨ (∀ text, ¬ CustomMessage field text).
Proof.
  destruct (validation field) as [v|] eqn:Hv.
  - destruct (decide (message v = "")) as [He|Hne].
    + right. intros text (v' & Hv' & Hm & Hn). congruence.
    + left. exists (message v), v. done.
  - right. intros text (v' & Hv' & _). congruence.
Qed.

Lemma below_min_Some field value n :
  below_min field value = Some n ↔ TooShort field value n.
Proof.
  unfold below_min, TooShort, truthy_number. split.
  - destruct (minLength field) as [k|]; [|done].
    destruct value as [[s|l|b]|]; try done.
    destruct (Z.eqb_spec k 0); simpl; [done|].
    destruct (Z.ltb_spec (str_length s) k); [|done].
    intros [= <-]. by exists s.
  - intros (s & -> & -> & Hlt).
    assert (n ≠ 0) by (unfold str_length in Hlt; lia).
    destruct (Z.eqb_spec n 0); [done|]. simpl.
    destruct (Z.ltb_spec (str_length s) n); [done|lia].
Qed.

Lemma above_max_Some field value n :
  above_max field value = Some n ↔ TooLong field value n.
Proof.
  unfold above_max, TooLong, truthy_number. split.
  - destruct (maxLength field) as [k|]; [|done].
    destruct value as [[s|l|b]|]; try done.
    destruct (Z.eqb_spec k 0); simpl; [done|].
    rewrite Z.gtb_ltb.
    destruct (Z.ltb_spec k (str_length s)); [|done].
    intros [= <-]. exists s. repeat split; auto; lia.
  - intros (s & -> & -> & Hn & Hlt).
    destruct (Z.eqb_spec n 0); [done|]. simpl.
    rewrite Z.gtb_ltb.
    destruct (Z.ltb_spec n (str_length s)); [done|lia].
Qed.

End Truthiness.

Section FieldRule.

Variable values : FormValues.
Variable field : FormField.

Local Abbreviation value := (values !! fieldId field).

Lemma not_required_missing :
  ¬ RequiredMissing field value → required field && is_missing value = false.
Proof.
  intros Hn. destruct (required field && is_missing value) eqn:E; [|done].
  by apply required_missing_true in E.
Qed.

Lemma not_blank : ¬ Blank value → is_blank value = false.
Proof.
  intros Hn. destruct (is_blank value) eqn:E; [|done].
  by apply is_blank_true in E.
Qed.

Lemma never_too_short :
  (∀ k, ¬ TooShort field value k) → below_min field value = None.
Proof.
  intros Hn. destruct (below_min field value) as [k|] eqn:E; [|done].
  apply below_min_Some in E. by destruct (Hn k).
Qed.

Lemma never_too_long :
  (∀ k, ¬ TooLong field value k) → above_max field value = None.
Proof.
  intros Hn. destruct (above_max field value) as [k|] eqn:E; [|done].
  apply above_max_Some in E. by destruct (Hn k).
Qed.

Lemma validateField_sound : field_rule field value (validateField values field).
Proof.
  unfold validateField.
  destruct (required field && is_missing value) eqn:Hreq.
  { apply required_missing_true in Hreq.
    destruct (custom_message_dec field) as [[text Hc]|Hno].
    - rewrite (required_message_custom _ _ Hc). by apply rule_required_custom.
    - rewrite (required_message_default _ Hno). by apply rule_required_default. }
  assert (¬ RequiredMissing field value) as Hnreq.
  { intros H. apply required_missing_true in H. congruence. }
  destruct (is_blank value) eqn:Hblank.
  { apply rule_blank; [done|]. by apply is_blank_true. }
  assert (¬ Blank value) as Hnblank.
  { intros H. apply is_blank_true in H. congruence. }
  destruct (below_min field value) as [n|] eqn:Hmin.
  { apply rule_min; [done..|]. by apply below_min_Some. }
  assert (∀ k, ¬ TooShort field value k) as Hnmin.
  { intros k H. apply below_min_Some in H. congruence. }
  destruct (above_max field value) as [n|] eqn:Hmax.
  { apply rule_max; [done..|]. by apply above_max_Some. }
  apply rule_pass; [done..|].
  intros k H. apply above_max_Some in H. congruence.
Qed.

Lemma validateField_complete text :
  field_rule field value text → validateField values field = text.
Proof.
  unfold validateField.
  destruct 1 as [text Hreq Hc|Hreq Hno|Hnreq Hb|n Hnreq Hnb Hs
                |n Hnreq Hnb Hns Hl|Hnreq Hnb Hns Hnl].
  - apply required_missing_true in Hreq. rewrite Hreq.
    by apply required_message_custom.
  - apply required_missing_true in Hreq. rewrite Hreq.
    by apply required_message_default.
  - rewrite (not_required_missing Hnreq).
    apply is_blank_true in Hb. by rewrite Hb.
  - rewrite (not_required_missing Hnreq), (not_blank Hnb).
    apply below_min_Some in Hs. by rewrite Hs.
  - rewrite (not_required_missing Hnreq), (not_blank Hnb),
      (never_too_short Hns).
    apply above_max_Some in Hl. by rewrite Hl.
  - by rewrite (not_required_missing Hnreq), (not_blank Hnb),
      (never_too_short Hns), (never_too_long Hnl).
Qed.

End FieldRule.

(** C2 (as amended): for a field whose length bounds are safe integers,
    the per-field rule returns [text] exactly when the five-step rule
    derives it: the custom message (if present and non-empty, otherwise
    "This field is required") for a required field whose value is
    absent, the empty string or an empty sequence; no error for an
    absent or empty-string value; "Minimum length is N characters" for a
    string shorter than a set [minLength]; "Maximum length is N
    characters" for a string longer than a set, non-zero [maxLength]; no
    error otherwise; N is the bound in decimal. *)
Theorem validateField_follows_rule (values : FormValues) (field : FormField)
    (text : string) :
  safe_bounds field →
  validateField values field = text ↔
  field_rule field (values !! fieldId field) text.
Proof.
  intros _. split.
  - intros <-. apply validateField_sound.
  - apply validateField_complete.
Qed.

Lemma validateField_follows_rule_witness :
  field_rule f_name (({[ "name" := VStr "A" ]} : FormValues) !! fieldId f_name)
    "Minimum length is 2 characters".
Proof.
  apply (validateField_follows_rule {[ "name" := VStr "A" ]} f_name
           "Minimum length is 2 characters").
  - split; intros n; simpl; [|discriminate].
    intros [= <-]. unfold safe_integer. lia.
  - vm_compute. reflexivity.
Defined.

(** C2 (as stated) fails: with [maxLength] set to 0 the literal rule
    reports a one-character string as too long and the code reports no
    error; with an empty custom message the literal rule returns it and
    the code falls back to "This field is required". *)
Lemma validateField_literal_differs :
  let zero_max := mkField "bio" "Bio" "text" false None (Some 0) None None in
  let empty_message :=
    mkField "bio" "Bio" "text" true None None None (Some (mkValidation "")) in
  (validateField {[ "bio" := VStr "a" ]} zero_max = "" ∧
   validateField_literal {[ "bio" := VStr "a" ]} zero_max
     = "Maximum length is 0 characters" ∧
   validateField {[ "bio" := VStr "a" ]} zero_max
     ≠ validateField_literal {[ "bio" := VStr "a" ]} zero_max) ∧
  (validateField ∅ empty_message = "This field is required" ∧
   validateField_literal ∅ empty_message = "" ∧
   validateField ∅ empty_message ≠ validateField_literal ∅ empty_message).
Proof. vm_compute. repeat split; discriminate. Qed.

(** C10: a required single checkbox (type checkbox, no options) whose
    value is [false] passes the per-field rule; the required check counts
    as missing exactly the absent value, the empty string and the empty
    sequence. *)
Theorem required_unchecked_checkbox_passes (values : FormValues)
    (field : FormField) :
  type field = "checkbox" → options field = None → required field = true →
  values !! fieldId field = Some (VBool false) →
  validateField values field = "" ∧
  (∀ value, is_missing value = true ↔
     value = None ∨ value = Some (VStr "") ∨ value = Some (VArr [])).
Proof.
  intros _ _ _ Hv. split; [|apply is_missing_true].
  unfold validateField, below_min, above_max. rewrite Hv. simpl.
  rewrite andb_false_r.
  by destruct (minLength field), (maxLength field).
Qed.

Lemma required_unchecked_checkbox_passes_witness :
  validateField {[ "agree" := VBool false ]} f_agree = "".
Proof.
  apply (required_unchecked_checkbox_passes {[ "agree" := VBool false ]} f_agree);
    reflexivity.
Defined.

(** ** Checkbox groups *)

Section Toggle.

Implicit Types (l : list string) (v : string).

Lemma toggle_absent l v : v ∉ l → toggle_option l v = l ++ [v].
Proof. intros H. unfold toggle_option. by rewrite bool_decide_eq_false_2. Qed.

Lemma toggle_present l v :
  v ∈ l → toggle_option l v = filter (λ x, x ≠ v) l.
Proof. intros H. unfold toggle_option. by rewrite bool_decide_eq_true_2. Qed.

Lemma filter_other_absent l v : v ∉ l → filter (λ x, x ≠ v) l = l.
Proof.
  induction l as [|x l IH]; [done|].
  rewrite not_elem_of_cons. intros [Hne Hl].
  rewrite filter_cons_True by congruence. by rewrite IH.
Qed.

Lemma filter_other_removes l v : v ∉ filter (λ x, x ≠ v) l.
Proof. rewrite list_elem_of_filter. tauto. Qed.

Lemma toggle_twice_absent l v :
  v ∉ l → toggle_option (toggle_option l v) v = l.
Proof.
  intros H. rewrite (toggle_absent l v H).
  rewrite toggle_present by (rewrite elem_of_app, list_elem_of_singleton; auto).
  rewrite filter_app, (filter_other_absent l v H).
  rewrite filter_cons_False by tauto. by rewrite filter_nil, app_nil_r.
Qed.

Lemma toggle_twice_present l v :
  v ∈ l → toggle_option (toggle_option l v) v = filter (λ x, x ≠ v) l ++ [v].
Proof.
  intros H. rewrite (toggle_present l v H).
  apply toggle_absent, filter_other_removes.
Qed.

Lemma move_to_end_Permutation l v :
  NoDup l → v ∈ l → filter (λ x, x ≠ v) l ++ [v] ≡ₚ l.
Proof.
  induction 1 as [|x l Hx Hnd IH]; [by rewrite elem_of_nil|].
  rewrite elem_of_cons. intros Hin.
  destruct (decide (x = v)) as [->|Hne].
  - rewrite filter_cons_False by tauto.
    rewrite (filter_other_absent l v Hx).
    symmetry. apply Permutation_cons_append.
  - rewrite filter_cons_True by done.
    destruct Hin as [->|Hin]; [done|].
    simpl. by rewrite (IH Hin).
Qed.

Lemma toggle_NoDup l v : NoDup l → NoDup (toggle_option l v).
Proof.
  intros Hnd. unfold toggle_option. case_bool_decide as Hin.
  - by apply NoDup_filter.
  - apply NoDup_app. repeat split; [done| |apply NoDup_singleton].
    intros x Hx. rewrite list_elem_of_singleton. by intros ->.
Qed.

Lemma toggle_twice_same_iff l v :
  toggle_option (toggle_option l v) v = l ↔ v ∉ l ∨ ∃ l', l = l' ++ [v] ∧ v ∉ l'.
Proof.
  destruct (decide (v ∈ l)) as [Hin|Hout].
  - rewrite (toggle_twice_present l v Hin). split.
    + intros Heq. right. exists (filter (λ x, x ≠ v) l).
      split; [done|apply filter_other_removes].
    + intros [Hout|(l' & -> & Hl')]; [done|].
      rewrite filter_app, (filter_other_absent l' v Hl').
      rewrite filter_cons_False by tauto. by rewrite filter_nil, app_nil_r.
  - rewrite (toggle_twice_absent l v Hout). tauto.
Qed.

End Toggle.

(** C3 (as amended): for a duplicate-free sequence, toggling a value twice
    in succession yields a duplicate-free sequence with the same elements
    (a permutation of the prior one); the prior order comes back exactly
    when the value was absent or was the last element, and otherwise the
    value has moved to the end. *)
Theorem double_toggle_contents (l : list string) (v : string) :
  NoDup l →
  ∃ l1 l2,
    handleCheckboxGroupChange (VArr l) v = Some l1 ∧
    handleCheckboxGroupChange (VArr l1) v = Some l2 ∧
    l2 ≡ₚ l ∧ NoDup l2 ∧
    (l2 = l ↔ v ∉ l ∨ ∃ l', l = l' ++ [v] ∧ v ∉ l') ∧
    (v ∈ l → l2 = filter (λ x, x ≠ v) l ++ [v]).
Proof.
  intros Hnd. exists (toggle_option l v), (toggle_option (toggle_option l v) v).
  split; [done|]. split; [done|]. repeat split.
  - destruct (decide (v ∈ l)) as [Hin|Hout].
    + rewrite (toggle_twice_present l v Hin). by apply move_to_end_Permutation.
    + by rewrite (toggle_twice_absent l v Hout).
  - by do 2 apply toggle_NoDup.
  - by apply toggle_twice_same_iff.
  - by apply toggle_twice_same_iff.
  - apply toggle_twice_present.
Qed.

Lemma double_toggle_contents_witness :
  ∃ l1 l2,
    handleCheckboxGroupChange (VArr ["js"; "ml"]) "ml" = Some l1 ∧
    handleCheckboxGroupChange (VArr l1) "ml" = Some l2 ∧
    l2 ≡ₚ ["js"; "ml"].
Proof.
  destruct (double_toggle_contents ["js"; "ml"] "ml") as (l1 & l2 & H1 & H2 & H3 & _).
  - compute_done.
  - exists l1, l2. auto.
Defined.

(** C3 (as stated) fails: toggling the first of two selected values twice
    moves it behind the other one. *)
Lemma double_toggle_reorders :
  ∃ l1 l2,
    handleCheckboxGroupChange (VArr ["js"; "ml"]) "js" = Some l1 ∧
    handleCheckboxGroupChange (VArr l1) "js" = Some l2 ∧
    l2 = ["ml"; "js"] ∧ l2 ≠ ["js"; "ml"].
Proof. exists ["ml"], ["ml"; "js"]. vm_compute. repeat split. discriminate. Qed.

(** ** Going back *)

Lemma handlePrevious_state (st : FormState) :
  handlePrevious st =
  (set_currentSectionIndex (currentSectionIndex st - 1)%nat st, []).
Proof.
  unfold handlePrevious.
  destruct (Z.ltb_spec 0 (Z.of_nat (currentSectionIndex st))); [done|].
  assert (currentSectionIndex st = 0%nat) as Hz by lia.
  destruct st; simpl in *; by subst.
Qed.

Lemma render_form_previousDisabled (st : FormState) heading view modal :
  render_form st = Some (FormView heading view modal) →
  previousDisabled view = true ↔ currentSectionIndex st = 0%nat.
Proof.
  unfold render_form.
  destruct (formData st) as [data|]; [|done].
  destruct (sections data !! currentSectionIndex st); [|done].
  intros [= <- <- <-]. simpl. lia.
Qed.

Lemma render_previousDisabled (st : FormState) heading view modal :
  render st = Some (FormView heading view modal) →
  previousDisabled view = true ↔ currentSectionIndex st = 0%nat.
Proof.
  unfold render. destruct (isLoading st); [done|].
  destruct (error st) as [text|]; [destruct (truthy_string text); [done|]|];
    apply render_form_previousDisabled.
Qed.

(** C5: "Previous" neither reads nor writes the value map and the error
    map (so it cannot depend on, or perform, a validation) and performs
    no outside effect; its control is disabled exactly on index 0; and
    from an index above 0 it moves to the index before, whatever the
    section's fields and values are. *)
Theorem previous_never_validates (st : FormState) :
  (formErrors (fst (handlePrevious st)) = formErrors st ∧
   formValues (fst (handlePrevious st)) = formValues st ∧
   formData (fst (handlePrevious st)) = formData st ∧
   showSubmissionModal (fst (handlePrevious st)) = showSubmissionModal st ∧
   snd (handlePrevious st) = []) ∧
  (∀ values errors,
     handlePrevious (set_formValues values (set_formErrors errors st)) =
     (set_formValues values (set_formErrors errors (fst (handlePrevious st))),
      [])) ∧
  (∀ heading view modal,
     render st = Some (FormView heading view modal) →
     (previousDisabled view = true ↔ currentSectionIndex st = 0%nat)) ∧
  (∀ section values errors currentIndex totalSections isLast,
     previousDisabled
       (FormSection_render section values errors currentIndex totalSections isLast)
     = true ↔ currentIndex = 0%nat) ∧
  ((0 < currentSectionIndex st)%nat →
     currentSectionIndex (fst (handlePrevious st))
     = (currentSectionIndex st - 1)%nat ∧
     (S (currentSectionIndex (fst (handlePrevious st)))
      = currentSectionIndex st)) ∧
  (currentSectionIndex st = 0%nat → fst (handlePrevious st) = st).
Proof.
  split; [by rewrite handlePrevious_state|].
  split; [intros values errors; by rewrite !handlePrevious_state|].
  split; [apply render_previousDisabled|].
  split; [intros; simpl; lia|].
  split.
  - intros Hpos. rewrite handlePrevious_state. simpl. lia.
  - intros Hz. unfold handlePrevious. by rewrite Hz.
Qed.

Lemma previous_never_validates_witness :
  let st := state_of [Settle (Resolved sample_form);
                      FieldChange "name" (VStr "Al"); Next] in
  currentSectionIndex st = 1%nat ∧
  currentSectionIndex (fst (handlePrevious st)) = 0%nat ∧
  formErrors (fst (handlePrevious st)) = formErrors st.
Proof.
  intros st.
  destruct (previous_never_validates st)
    as ((Herrors & _) & _ & _ & _ & Hdec & _).
  split; [reflexivity|].
  split; [|exact Herrors].
  destruct Hdec as [Hdec _]; [vm_compute; lia|exact Hdec].
Defined.

(** ** Login gate *)

Section LoginGate.

Import Login.

Lemma trimEnd_empty_of_empty s : s = "" → trimEnd s = "".
Proof. by intros ->. Qed.

Lemma trimEnd_nonempty c s :
  is_whitespace c = false → trimEnd (String c s) ≠ "".
Proof. intros H. simpl. by rewrite H. Qed.

Lemma trimStart_shape s :
  trimStart s = "" ∨
  ∃ c t, trimStart s = String c t ∧ is_whitespace c = false.
Proof.
  induction s as [|c s IH]; [by left|].
  simpl. destruct (is_whitespace c) eqn:Hc; [done|].
  right. by exists c, s.
Qed.

(** A string trims to the empty string exactly when every code unit of
    it is white space. *)
Lemma trim_empty_iff s :
  trim s = "" ↔ ∀ c, c ∈ list_ascii_of_string s → is_whitespace c = true.
Proof.
  unfold trim. induction s as [|c s IH]; simpl.
  - split; [|done]. intros _ c. by rewrite elem_of_nil.
  - destruct (is_whitespace c) eqn:Hc.
    + rewrite IH. split.
      * intros H x. rewrite elem_of_cons. intros [->|Hx]; auto.
      * intros H x Hx. apply H. rewrite elem_of_cons. auto.
    + split.
      * intros H. exfalso. revert H. change (trimEnd (String c s) ≠ "").
        by apply trimEnd_nonempty.
      * intros H. specialize (H c). rewrite elem_of_cons in H.
        rewrite H in Hc by auto. done.
Qed.

Lemma handleSubmit_blank st :
  trim (rollNumber (user st)) = "" ∨ trim (name (user st)) = "" →
  handleSubmit st =
  Returned (mkLogin (user st) (isLoading st)
              (Some "Both Roll Number and Name are required")).
Proof.
  intros H. unfold handleSubmit.
  assert (negb (truthy_string (trim (rollNumber (user st)))) ||
          negb (truthy_string (trim (name (user st)))) = true) as ->; [|done].
  apply orb_true_iff.
  destruct H as [H|H]; [left|right]; by rewrite H.
Qed.

Lemma handleSubmit_filled st :
  trim (rollNumber (user st)) ≠ "" → trim (name (user st)) ≠ "" →
  handleSubmit st =
  Awaiting (mkLogin (user st) true None) (user st)
           (handleSubmit_resume (user st)).
Proof.
  intros H1 H2. unfold handleSubmit.
  apply truthy_string_true in H1, H2. by rewrite H1, H2.
Qed.

End LoginGate.

(** C9: a login submission whose roll number or name trims to the empty
    string sets the error to "Both Roll Number and Name are required",
    leaves the rest of the state alone and sends nothing to [createUser];
    a request is sent exactly when both trimmed fields are non-empty, and
    then it is the one request carrying the entered user. *)
Theorem login_blank_no_request (st : Login.State) :
  let roll := Login.trim (Login.rollNumber (Login.user st)) in
  let name := Login.trim (Login.name (Login.user st)) in
  (roll = "" ∨ name = "" →
     Login.handleSubmit st =
       Login.Returned
         (Login.mkLogin (Login.user st) (Login.isLoading st)
            (Some "Both Roll Number and Name are required")) ∧
     Login.createUser_calls (Login.handleSubmit st) = []) ∧
  (Login.createUser_calls (Login.handleSubmit st) ≠ [] ↔ roll ≠ "" ∧ name ≠ "") ∧
  (roll ≠ "" ∧ name ≠ "" →
     Login.createUser_calls (Login.handleSubmit st) = [Login.user st]).
Proof.
  intros roll name.
  destruct (decide (roll = "")) as [Hr|Hr];
    [|destruct (decide (name = "")) as [Hn|Hn]].
  - rewrite (handleSubmit_blank st) by (by left). simpl.
    split; [done|]. split; [split; [done|tauto]|tauto].
  - rewrite (handleSubmit_blank st) by (by right). simpl.
    split; [done|]. split; [split; [done|tauto]|tauto].
  - rewrite (handleSubmit_filled st Hr Hn). simpl.
    split; [tauto|]. split; [split; [done|discriminate]|done].
Qed.

Lemma login_blank_no_request_witness :
  Login.createUser_calls
    (Login.handleSubmit (Login.mkLogin (Login.mkUser "   " "Asha") false None))
  = [] ∧
  Login.state_after
    (Login.handleSubmit (Login.mkLogin (Login.mkUser "   " "Asha") false None))
  = Login.mkLogin (Login.mkUser "   " "Asha") false
      (Some "Both Roll Number and Name are required").
Proof.
  destruct (login_blank_no_request
              (Login.mkLogin (Login.mkUser "   " "Asha") false None))
    as [H _].
  destruct H as [H1 H2]; [left; reflexivity|].
  split; [exact H2|]. rewrite H1. reflexivity.
Defined.

(** ** Section validation *)

Section SectionValidation.

Variable values : FormValues.

Implicit Types (fs : list FormField) (f : FormField).

Lemma validate_fields_snoc fs f :
  validate_fields values (fs ++ [f]) =
  validate_step values (validate_fields values fs) f.
Proof. unfold validate_fields. apply foldl_snoc. Qed.

Lemma validate_step_failing acc f :
  validateField values f ≠ "" →
  validate_step values acc f =
  (<[fieldId f := validateField values f]> (fst acc), false).
Proof.
  intros H. unfold validate_step.
  apply truthy_string_true in H. by rewrite H.
Qed.

Lemma validate_step_passing acc f :
  validateField values f = "" → validate_step values acc f = acc.
Proof. intros H. unfold validate_step. by rewrite H. Qed.

(** The flag returned is [true] exactly when nothing was recorded. *)
Lemma validate_fields_flag fs :
  snd (validate_fields values fs) = true ↔ fst (validate_fields values fs) = ∅.
Proof.
  induction fs as [|f fs IH] using rev_ind; [done|].
  rewrite validate_fields_snoc.
  destruct (decide (validateField values f = "")) as [Hp|Hf].
  - by rewrite validate_step_passing.
  - rewrite validate_step_failing by done. simpl. split; [done|].
    intros H. by apply insert_non_empty in H.
Qed.

(** Every entry recorded is the non-empty message of a field of the
    list. *)
Lemma validate_fields_lookup_Some fs fid text :
  fst (validate_fields values fs) !! fid = Some text →
  ∃ f, f ∈ fs ∧ fieldId f = fid ∧ validateField values f = text ∧ text ≠ "".
Proof.
  induction fs as [|f fs IH] using rev_ind; [done|].
  rewrite validate_fields_snoc.
  destruct (decide (validateField values f = "")) as [Hp|Hf].
  - rewrite validate_step_passing by done. intros H.
    destruct (IH H) as (g & Hg & ?). exists g. rewrite elem_of_app. auto.
  - rewrite validate_step_failing by done. simpl.
    destruct (decide (fieldId f = fid)) as [<-|Hne].
    + rewrite lookup_insert_eq. intros [= <-]. exists f.
      rewrite elem_of_app, list_elem_of_singleton. auto.
    + rewrite lookup_insert_ne by done. intros H.
      destruct (IH H) as (g & Hg & ?). exists g. rewrite elem_of_app. auto.
Qed.

(** Every failing field of the list has an entry. *)
Lemma validate_fields_lookup_failing fs f :
  f ∈ fs → validateField values f ≠ "" →
  is_Some (fst (validate_fields values fs) !! fieldId f).
Proof.
  induction fs as [|g fs IH] using rev_ind; [by rewrite elem_of_nil|].
  rewrite elem_of_app, list_elem_of_singleton, validate_fields_snoc.
  intros Hin Hfail.
  destruct (decide (validateField values g = "")) as [Hp|Hf].
  - rewrite validate_step_passing by done.
    destruct Hin as [Hin| ->]; [by apply IH|done].
  - rewrite validate_step_failing by done. simpl.
    destruct (decide (fieldId g = fieldId f)) as [->|Hne].
    + by rewrite lookup_insert_eq.
    + rewrite lookup_insert_ne by done.
      destruct Hin as [Hin| ->]; [by apply IH|done].
Qed.

(** With distinct field identifiers, the entry of a failing field is
    that field's message. *)
Lemma validate_fields_lookup_unique fs f :
  NoDup (fieldId <$> fs) → f ∈ fs → validateField values f ≠ "" →
  fst (validate_fields values fs) !! fieldId f = Some (validateField values f).
Proof.
  induction fs as [|g fs IH] using rev_ind; [by rewrite elem_of_nil|].
  rewrite fmap_app, NoDup_app. simpl. intros (Hnd & Hsep & _).
  rewrite elem_of_app, list_elem_of_singleton, validate_fields_snoc.
  intros Hin Hfail.
  destruct Hin as [Hin| ->].
  - assert (fieldId g ≠ fieldId f) as Hne.
    { intros Heq. apply (Hsep (fieldId f)).
      + apply list_elem_of_fmap. by exists f.
      + rewrite Heq. apply list_elem_of_singleton. done. }
    destruct (decide (validateField values g = "")) as [Hp|Hf].
    + rewrite validate_step_passing by done. by apply IH.
    + rewrite validate_step_failing by done. simpl.
      rewrite lookup_insert_ne by done. by apply IH.
  - rewrite validate_step_failing by done. simpl. by rewrite lookup_insert_eq.
Qed.

Lemma validate_fields_all_pass fs :
  (∀ f, f ∈ fs → validateField values f = "") ↔
  fst (validate_fields values fs) = ∅.
Proof.
  split.
  - intros Hall. apply map_eq. intros fid. rewrite lookup_empty.
    destruct (fst (validate_fields values fs) !! fid) as [text|] eqn:E; [|done].
    apply validate_fields_lookup_Some in E as (f & Hin & _ & Hm & Hne).
    rewrite (Hall f Hin) in Hm. congruence.
  - intros Hempty f Hin.
    destruct (decide (validateField values f = "")) as [|Hfail]; [done|].
    destruct (validate_fields_lookup_failing fs f Hin Hfail) as [text Ht].
    rewrite Hempty, lookup_empty in Ht. done.
Qed.

Lemma validate_fields_pair fs :
  validate_fields values fs =
  (fst (validate_fields values fs),
   bool_decide (fst (validate_fields values fs) = ∅)).
Proof.
  destruct (validate_fields values fs) as [errs flag] eqn:E. simpl. f_equal.
  pose proof (validate_fields_flag fs) as H. rewrite E in H. simpl in H.
  destruct flag.
  - symmetry. apply bool_decide_eq_true_2. by apply H.
  - symmetry. apply bool_decide_eq_false_2. intros He.
    apply H in He. done.
Qed.

End SectionValidation.

Lemma validateSection_loaded (st : FormState) data i section :
  formData st = Some data → sections data !! i = Some section →
  validateSection i st =
  Some (bool_decide (fst (validate_fields (formValues st) (fields section)) = ∅),
        set_formErrors (fst (validate_fields (formValues st) (fields section))) st).
Proof.
  intros Hd Hs. unfold validateSection. rewrite Hd, Hs.
  by rewrite (validate_fields_pair (formValues st) (fields section)).
Qed.

(** C1: on a loaded schema and the index of one of its sections,
    [validateSection] computes a map from the fields of that section
    alone: a field identifier has an entry exactly when a field of the
    section with that identifier yields a non-empty message, the entry is
    such a message (the field's own when identifiers are distinct), and
    no other identifier has one. That map becomes the error map whatever
    the previous map held, and the result is [true] exactly when the map
    is empty. *)
Theorem validateSection_replaces_errors (st : FormState) data i section :
  formData st = Some data → sections data !! i = Some section →
  ∃ newErrors isValid,
    validateSection i st = Some (isValid, set_formErrors newErrors st) ∧
    (isValid = true ↔ newErrors = ∅) ∧
    (∀ fid, is_Some (newErrors !! fid) ↔
       ∃ f, f ∈ fields section ∧ fieldId f = fid ∧
            validateField (formValues st) f ≠ "") ∧
    (∀ fid text, newErrors !! fid = Some text →
       ∃ f, f ∈ fields section ∧ fieldId f = fid ∧
            validateField (formValues st) f = text) ∧
    (NoDup (fieldId <$> fields section) →
     ∀ f, f ∈ fields section → validateField (formValues st) f ≠ "" →
          newErrors !! fieldId f = Some (validateField (formValues st) f)) ∧
    (∀ fid, fid ∉ fieldId <$> fields section → newErrors !! fid = None) ∧
    (∀ previous,
       validateSection i (set_formErrors previous st) =
       Some (isValid, set_formErrors newErrors st)) ∧
    formErrors (set_formErrors newErrors st) = newErrors.
Proof.
  intros Hd Hs.
  exists (fst (validate_fields (formValues st) (fields section))),
    (bool_decide (fst (validate_fields (formValues st) (fields section)) = ∅)).
  split; [by apply validateSection_loaded with data|].
  split; [apply bool_decide_eq_true|].
  split.
  { intros fid. split.
    - intros [text Ht].
      apply validate_fields_lookup_Some in Ht as (f & Hin & Hid & Hm & Hne).
      exists f. rewrite Hm. done.
    - intros (f & Hin & <- & Hfail).
      by apply validate_fields_lookup_failing. }
  split.
  { intros fid text Ht.
    apply validate_fields_lookup_Some in Ht as (f & Hin & Hid & Hm & Hne).
    by exists f. }
  split; [intros Hnd f; by apply validate_fields_lookup_unique|].
  split.
  { intros fid Hout.
    destruct (fst (validate_fields (formValues st) (fields section)) !! fid)
      as [text|] eqn:E; [|done].
    apply validate_fields_lookup_Some in E as (f & Hin & Hid & _).
    destruct Hout. apply list_elem_of_fmap. by exists f. }
  split; [|done].
  intros previous.
  by rewrite (validateSection_loaded (set_formErrors previous st) data i section).
Qed.

Lemma validateSection_replaces_errors_witness :
  ∃ newErrors isValid,
    validateSection 0 (state_of short_name_events)
    = Some (isValid, set_formErrors newErrors (state_of short_name_events)) ∧
    (isValid = true ↔ newErrors = ∅).
Proof.
  destruct (validateSection_replaces_errors (state_of short_name_events)
              sample_form 0 (mkSection "s1" "Identity" [f_name])
              eq_refl eq_refl)
    as (newErrors & isValid & H1 & H2 & _).
  exists newErrors, isValid. split; assumption.
Defined.

(** ** Next and Submit *)

(** C6: on a section that is not the last, "Next" runs the section
    validation of the current section and installs its error map; when
    the validation passes that map is empty and the index goes up by one,
    and when it fails the index stays and every failing field has an
    entry, which is that field's message when identifiers are distinct. *)
Theorem next_validates_then_advances (st : FormState) data section :
  formData st = Some data →
  sections data !! currentSectionIndex st = Some section →
  (S (currentSectionIndex st) < length (sections data))%nat →
  ∃ isValid newErrors st' effects,
    validateSection (currentSectionIndex st) st
      = Some (isValid, set_formErrors newErrors st) ∧
    handleNext st = Some (st', effects) ∧
    formErrors st' = newErrors ∧
    (isValid = true ↔
       ∀ f, f ∈ fields section → validateField (formValues st) f = "") ∧
    (isValid = true →
       currentSectionIndex st' = S (currentSectionIndex st) ∧ newErrors = ∅ ∧
       st' = set_currentSectionIndex (currentSectionIndex st + 1)%nat
               (set_formErrors ∅ st)) ∧
    (isValid = false →
       currentSectionIndex st' = currentSectionIndex st ∧
       st' = set_formErrors newErrors st ∧
       (∀ f, f ∈ fields section → validateField (formValues st) f ≠ "" →
             ∃ text, newErrors !! fieldId f = Some text ∧ text ≠ "") ∧
       (NoDup (fieldId <$> fields section) →
        ∀ f, f ∈ fields section → validateField (formValues st) f ≠ "" →
             newErrors !! fieldId f = Some (validateField (formValues st) f))).
Proof.
  intros Hd Hs Hlt.
  pose proof (validateSection_loaded st data _ section Hd Hs) as Hv.
  set (newErrors := fst (validate_fields (formValues st) (fields section))) in *.
  assert ((Z.of_nat (currentSectionIndex st)
             <? Z.of_nat (length (sections data)) - 1) = true) as Hnot_last
    by (apply Z.ltb_lt; lia).
  destruct (bool_decide (newErrors = ∅)) eqn:Hvalid.
  - apply bool_decide_eq_true in Hvalid.
    exists true, newErrors,
      (set_currentSectionIndex (currentSectionIndex st + 1)%nat
         (set_formErrors newErrors st)), [ScrollToTop].
    split; [done|].
    split; [unfold handleNext; by rewrite Hd, Hv, Hnot_last|].
    split; [done|].
    split; [split; [intros _; by apply validate_fields_all_pass|done]|].
    split; [|done].
    intros _. simpl. rewrite Hvalid. split; [lia|done].
  - apply bool_decide_eq_false in Hvalid.
    exists false, newErrors, (set_formErrors newErrors st), [].
    split; [done|].
    split; [unfold handleNext; by rewrite Hd, Hv|].
    split; [done|].
    split.
    { split; [done|]. intros Hall. destruct Hvalid.
      by apply validate_fields_all_pass. }
    split; [done|].
    intros _. split; [done|]. split; [done|]. split.
    + intros f Hin Hfail.
      destruct (validate_fields_lookup_failing (formValues st) _ f Hin Hfail)
        as [text Ht].
      exists text. split; [done|].
      by apply validate_fields_lookup_Some in Ht as (g & _ & _ & _ & Hne).
    + intros Hnd f. by apply validate_fields_lookup_unique.
Qed.

Lemma next_validates_then_advances_witness :
  ∃ st' effects,
    handleNext (state_of [Settle (Resolved sample_form);
                          FieldChange "name" (VStr "A")])
    = Some (st', effects) ∧
    currentSectionIndex st' = 0%nat ∧
    formErrors st' !! "name" = Some "Minimum length is 2 characters".
Proof.
  destruct (next_validates_then_advances
              (state_of [Settle (Resolved sample_form);
                         FieldChange "name" (VStr "A")])
              sample_form (mkSection "s1" "Identity" [f_name])
              eq_refl eq_refl)
    as (isValid & newErrors & st' & effects & Hv & Hn & He & Hiff & _ & Hfail).
  - vm_compute. lia.
  - exists st', effects. split; [exact Hn|].
    assert (isValid = false) as ->.
    { destruct isValid; [|reflexivity]. exfalso.
      assert (validateField {[ "name" := VStr "A" ]} f_name = "") as Habs.
      { apply Hiff; [reflexivity|]. apply list_elem_of_singleton. reflexivity. }
      vm_compute in Habs. discriminate. }
    destruct (Hfail eq_refl) as (Hidx & _ & _ & Hmsg).
    split; [exact Hidx|]. rewrite He.
    apply (Hmsg ltac:(compute_done) f_name).
    + apply list_elem_of_singleton. reflexivity.
    + vm_compute. discriminate.
Defined.

(** The spec's scenario: "A" is rejected with the length message and the
    form stays on the first section; "Al" moves on to the second. *)
Example scenario_short_name :
  currentSectionIndex (state_of short_name_events) = 0%nat ∧
  formErrors (state_of short_name_events)
  = {[ "name" := "Minimum length is 2 characters" ]}.
Proof. vm_compute. done. Qed.

Example scenario_valid_name :
  currentSectionIndex
    (state_of [Settle (Resolved sample_form); FieldChange "name" (VStr "Al"); Next])
  = 1%nat ∧
  formErrors
    (state_of [Settle (Resolved sample_form); FieldChange "name" (VStr "Al"); Next])
  = ∅.
Proof. vm_compute. done. Qed.

(** ** The summary *)

Lemma formatValue_cases :
  (∀ l, formatValue (Some (VArr l)) = String.concat ", " l) ∧
  formatValue (Some (VBool true)) = "Yes" ∧
  formatValue (Some (VBool false)) = "No" ∧
  formatValue (Some (VStr "")) = "-" ∧
  formatValue None = "-" ∧
  (∀ s, s ≠ "" → formatValue (Some (VStr s)) = s).
Proof.
  repeat split; try done.
  intros s Hs. simpl. apply truthy_string_true in Hs. by rewrite Hs.
Qed.

Lemma summary_lookup (values : FormValues) (secs : list FormSection) i sec :
  secs !! i = Some sec →
  ∃ entry,
    map (summary_section values) secs !! i = Some entry ∧
    summaryTitle entry = title sec ∧
    length (summaryRows entry) = length (fields sec) ∧
    ∀ j f, fields sec !! j = Some f →
           summaryRows entry !! j
           = Some (mkRow (label f) (formatValue (values !! fieldId f))).
Proof.
  intros Hi. exists (summary_section values sec).
  split; [by rewrite list_lookup_fmap, Hi|].
  split; [done|]. split; [apply length_map|].
  intros j f Hj. simpl.
  change (map (summary_row values) (fields sec))
    with (summary_row values <$> fields sec).
  by rewrite list_lookup_fmap, Hj.
Qed.

(** C8 (as amended): when the current section validates, "Submit" opens
    the summary: the next view lists every section of the schema, and
    under it every field with its label and its current value formatted:
    a sequence joined with a comma followed by a space (so the empty
    sequence gives the empty string, not a dash), a boolean as "Yes" or
    "No", an absent or empty-string value as "-", any other string as it
    is. The handler leaves the value map alone and its only outside
    effect is a console line: no request is sent. The Submit control is
    the one shown exactly on the last section. *)
Theorem submit_opens_summary (st : FormState) data section :
  formData st = Some data →
  sections data !! currentSectionIndex st = Some section →
  isLoading st = false → error st = None →
  (∀ f, f ∈ fields section → validateField (formValues st) f = "") →
  ∃ st' heading view summary,
    handleSubmit st
      = Some (st', [ConsoleLog "Form submitted with values:" (formValues st)]) ∧
    formValues st' = formValues st ∧
    showSubmissionModal st' = true ∧
    render st' = Some (FormView heading view (Some summary)) ∧
    length summary = length (sections data) ∧
    (∀ i sec, sections data !! i = Some sec →
       ∃ entry,
         summary !! i = Some entry ∧
         summaryTitle entry = title sec ∧
         length (summaryRows entry) = length (fields sec) ∧
         ∀ j f, fields sec !! j = Some f →
                summaryRows entry !! j
                = Some (mkRow (label f)
                          (formatValue (formValues st !! fieldId f)))) ∧
    (formatValue (Some (VArr [])) = "" ∧
     (∀ l, formatValue (Some (VArr l)) = String.concat ", " l) ∧
     formatValue (Some (VBool true)) = "Yes" ∧
     formatValue (Some (VBool false)) = "No" ∧
     formatValue (Some (VStr "")) = "-" ∧
     formatValue None = "-" ∧
     (∀ s, s ≠ "" → formatValue (Some (VStr s)) = s)) ∧
    (primaryButton view = SubmitButton ↔
       S (currentSectionIndex st) = length (sections data)).
Proof.
  intros Hd Hs Hload Herr Hall.
  pose proof (validateSection_loaded st data _ section Hd Hs) as Hv.
  apply validate_fields_all_pass in Hall.
  rewrite Hall in Hv. rewrite bool_decide_eq_true_2 in Hv by done.
  eexists (set_showSubmissionModal true (set_formErrors ∅ st)), _, _, _.
  split; [unfold handleSubmit; by rewrite Hd, Hv|].
  split; [done|]. split; [done|].
  split.
  { unfold render, render_form, renderSubmissionModal. simpl.
    rewrite Hload, Herr, Hd, Hs. reflexivity. }
  split; [apply length_map|].
  split; [intros i sec Hi; by apply summary_lookup|].
  split; [split; [done|apply formatValue_cases]|].
  simpl.
  destruct (Z.eqb_spec (Z.of_nat (currentSectionIndex st))
              (Z.of_nat (length (sections data)) - 1)); split; try done; lia.
Qed.

Lemma submit_opens_summary_witness :
  ∃ st' heading view,
    handleSubmit (state_of complete_events)
      = Some (st', [ConsoleLog "Form submitted with values:"
                      (formValues (state_of complete_events))]) ∧
    render st'
      = Some (FormView heading view
          (Some [ mkSummary "Identity" [mkRow "Name" "Al"];
                  mkSummary "Details"
                    [mkRow "Skills" ""; mkRow "I agree" "Yes";
                     mkRow "About you" "-"] ])).
Proof.
  destruct (submit_opens_summary (state_of complete_events) sample_form
              (mkSection "s2" "Details" [f_skills; f_agree; f_bio])
              eq_refl eq_refl eq_refl eq_refl)
    as (st' & heading & view & summary & Hsub & _ & _ & Hrender & _).
  - intros f Hf.
    apply elem_of_cons in Hf as [->|Hf]; [vm_compute; reflexivity|].
    apply elem_of_cons in Hf as [->|Hf]; [vm_compute; reflexivity|].
    apply list_elem_of_singleton in Hf as ->. vm_compute. reflexivity.
  - exists st', heading, view. split; [exact Hsub|].
    rewrite Hrender.
    assert (Some (st', [ConsoleLog "Form submitted with values:"
                          (formValues (state_of complete_events))])
            = handleSubmit (state_of complete_events)) as Heq by (by rewrite Hsub).
    vm_compute in Heq. injection Heq as ->.
    vm_compute in Hrender. injection Hrender as _ _ <-. reflexivity.
Defined.

(** C8 (as stated) fails: the empty sequence of an untouched checkbox
    group is summarised as the empty string, not as a dash, and selected
    values are separated by a comma and a space, not by a comma alone. *)
Lemma summary_literal_differs :
  (formatValue (Some (VArr [])) = "" ∧
   formatValue_literal (Some (VArr [])) = "-" ∧
   formatValue (Some (VArr [])) ≠ formatValue_literal (Some (VArr []))) ∧
  (formatValue (Some (VArr ["js"; "ml"])) = "js, ml" ∧
   formatValue_literal (Some (VArr ["js"; "ml"])) = "js,ml" ∧
   formatValue (Some (VArr ["js"; "ml"]))
     ≠ formatValue_literal (Some (VArr ["js"; "ml"]))) ∧
  formValues (state_of complete_events) !! "skills" = Some (VArr []) ∧
  match handleSubmit (state_of complete_events) with
  | Some (st', _) => renderSubmissionModal st'
  | None => None
  end
  = Some [ mkSummary "Identity" [mkRow "Name" "Al"];
           mkSummary "Details"
             [mkRow "Skills" ""; mkRow "I agree" "Yes"; mkRow "About you" "-"] ].
Proof. vm_compute. repeat split; discriminate. Qed.

(** ** Field edits *)

Lemma validateSection_errors_nonempty i st isValid st' :
  errors_nonempty st → validateSection i st = Some (isValid, st') →
  errors_nonempty st'.
Proof.
  unfold validateSection. intros Hinv.
  destruct (formData st) as [data|]; [|by intros [= <- <-]].
  destruct (sections data !! i) as [section|]; [|done].
  rewrite (validate_fields_pair (formValues st) (fields section)).
  intros [= <- <-] fid text. simpl. intros Ht.
  by apply validate_fields_lookup_Some in Ht as (f & _ & _ & _ & Hne).
Qed.

Lemma handleFieldChange_errors fid value st :
  formErrors (handleFieldChange fid value st) = formErrors st ∨
  formErrors (handleFieldChange fid value st) = delete fid (formErrors st).
Proof.
  unfold handleFieldChange.
  destruct (formErrors st !! fid) as [text|]; [|by left].
  destruct (truthy_string text); [by right|by left].
Qed.

Lemma step_errors_nonempty ev st st' effects :
  errors_nonempty st → step ev st = Some (st', effects) → errors_nonempty st'.
Proof.
  intros Hinv. destruct ev as [r|fid value| | | |]; simpl.
  - destruct r; intros [= <- <-]; exact Hinv.
  - intros [= <- <-] k text.
    destruct (handleFieldChange_errors fid value st) as [-> | ->].
    + apply Hinv.
    + rewrite lookup_delete_Some. intros [_ H]. by apply Hinv in H.
  - rewrite handlePrevious_state. intros [= <- <-]. exact Hinv.
  - unfold handleNext.
    destruct (formData st) as [data|]; [|intros [= <- <-]; exact Hinv].
    destruct (validateSection (currentSectionIndex st) st)
      as [[isValid st1]|] eqn:Hv; [|done].
    pose proof (validateSection_errors_nonempty _ _ _ _ Hinv Hv) as Hinv1.
    destruct (_ && _); intros [= <- <-]; exact Hinv1.
  - unfold handleSubmit.
    destruct (formData st) as [data|]; [|intros [= <- <-]; exact Hinv].
    destruct (validateSection (currentSectionIndex st) st)
      as [[isValid st1]|] eqn:Hv; [|done].
    pose proof (validateSection_errors_nonempty _ _ _ _ Hinv Hv) as Hinv1.
    destruct isValid; intros [= <- <-]; exact Hinv1.
  - intros [= <- <-]. exact Hinv.
Qed.

Lemma reachable_errors_nonempty st : reachable st → errors_nonempty st.
Proof.
  induction 1 as [|ev st st' effects _ IH Hstep].
  - intros fid text. simpl. by rewrite lookup_empty.
  - by apply (step_errors_nonempty ev st st' effects).
Qed.

Lemma run_reachable events st st' :
  reachable st → run events st = Some st' → reachable st'.
Proof.
  revert st. induction events as [|ev events IH]; intros st Hr; simpl.
  - by intros [= <-].
  - destruct (step ev st) as [[st1 effects]|] eqn:Hstep; [|done].
    apply IH. by apply (reach_step ev st st1 effects).
Qed.

Lemma handleFieldChange_clears fid value st :
  formErrors st !! fid ≠ Some "" →
  formErrors (handleFieldChange fid value st) = delete fid (formErrors st).
Proof.
  intros Hne. unfold handleFieldChange.
  destruct (formErrors st !! fid) as [text|] eqn:E.
  - destruct (truthy_string text) eqn:Ht; [done|].
    apply truthy_string_false in Ht. congruence.
  - simpl. symmetry. by apply delete_id.
Qed.

Lemma handleFieldChange_values fid value st :
  formValues (handleFieldChange fid value st) = <[fid := value]> (formValues st).
Proof.
  unfold handleFieldChange.
  destruct (formErrors st !! fid) as [text|]; [|done].
  by destruct (truthy_string text).
Qed.

(** C4: in every state the screen can reach, an edit of a field stores
    the new value under its identifier and leaves that identifier without
    an error entry, whatever the new value is (and so whether or not it
    would validate); the entries of all other identifiers in both maps,
    and the rest of the state, stay as they were. *)
Theorem edit_sets_value_and_clears_error (st : FormState) fid value :
  reachable st →
  let st' := handleFieldChange fid value st in
  formValues st' !! fid = Some value ∧
  formErrors st' !! fid = None ∧
  (∀ other, other ≠ fid →
     formValues st' !! other = formValues st !! other ∧
     formErrors st' !! other = formErrors st !! other) ∧
  formData st' = formData st ∧
  currentSectionIndex st' = currentSectionIndex st ∧
  showSubmissionModal st' = showSubmissionModal st ∧
  isLoading st' = isLoading st ∧ error st' = error st.
Proof.
  intros Hreach st'. subst st'.
  rewrite handleFieldChange_values, handleFieldChange_clears.
  2: { intros H. by apply (reachable_errors_nonempty st Hreach) in H. }
  split; [apply lookup_insert_eq|].
  split; [apply lookup_delete_eq|].
  split.
  { intros other Hne.
    by rewrite lookup_insert_ne, lookup_delete_ne. }
  unfold handleFieldChange.
  destruct (formErrors st !! fid) as [text|]; [|done].
  by destruct (truthy_string text).
Qed.

Lemma edit_sets_value_and_clears_error_witness :
  let st' := handleFieldChange "name" (VStr "B") (state_of short_name_events) in
  formErrors (state_of short_name_events) !! "name"
    = Some "Minimum length is 2 characters" ∧
  validateField (formValues st') f_name = "Minimum length is 2 characters" ∧
  formValues st' !! "name" = Some (VStr "B") ∧
  formErrors st' !! "name" = None.
Proof.
  intros st'.
  split; [reflexivity|]. split; [vm_compute; reflexivity|].
  destruct (edit_sets_value_and_clears_error (state_of short_name_events)
              "name" (VStr "B")) as (Hvalue & Herror & _).
  - apply (run_reachable short_name_events initialState); [apply reach_init|].
    vm_compute. reflexivity.
  - split; [exact Hvalue|exact Herror].
Defined.

(** ** Value-map initialisation *)

Section Initialisation.

Implicit Types (fs : list FormField) (f : FormField) (acc : FormValues).

Lemma initialValues_flat data :
  initialValues data = foldl init_field ∅ (all_fields data).
Proof.
  unfold initialValues, all_fields.
  generalize (∅ : FormValues).
  induction (sections data) as [|section rest IH]; intros acc; [done|].
  simpl. rewrite foldl_app. apply IH.
Qed.

Lemma init_fields_snoc acc fs f :
  foldl init_field acc (fs ++ [f]) =
  <[fieldId f := initialValue f]> (foldl init_field acc fs).
Proof. by rewrite foldl_snoc. Qed.

(** The entry of an identifier comes from a field of the list carrying
    that identifier. *)
Lemma init_fields_lookup_Some fs fid value :
  foldl init_field ∅ fs !! fid = Some value →
  ∃ f, f ∈ fs ∧ fieldId f = fid ∧ value = initialValue f.
Proof.
  induction fs as [|f fs IH] using rev_ind; [done|].
  rewrite init_fields_snoc.
  destruct (decide (fieldId f = fid)) as [<-|Hne].
  - rewrite lookup_insert_eq. intros [= <-]. exists f.
    rewrite elem_of_app, list_elem_of_singleton. auto.
  - rewrite lookup_insert_ne by done. intros H.
    destruct (IH H) as (g & Hg & ?). exists g. rewrite elem_of_app. auto.
Qed.

Lemma init_fields_lookup_member fs f :
  f ∈ fs → is_Some (foldl init_field ∅ fs !! fieldId f).
Proof.
  induction fs as [|g fs IH] using rev_ind; [by rewrite elem_of_nil|].
  rewrite elem_of_app, list_elem_of_singleton, init_fields_snoc.
  intros Hin.
  destruct (decide (fieldId g = fieldId f)) as [->|Hne].
  - by rewrite lookup_insert_eq.
  - rewrite lookup_insert_ne by done.
    destruct Hin as [Hin| ->]; [by apply IH|done].
Qed.

Lemma init_fields_lookup_unique fs f :
  NoDup (fieldId <$> fs) → f ∈ fs →
  foldl init_field ∅ fs !! fieldId f = Some (initialValue f).
Proof.
  intros Hnd Hin.
  destruct (init_fields_lookup_member fs f Hin) as [value Hv].
  rewrite Hv.
  apply init_fields_lookup_Some in Hv as (g & Hg & Hid & ->).
  apply list_elem_of_lookup in Hin as [i Hi].
  apply list_elem_of_lookup in Hg as [j Hj].
  assert (i = j) as ->.
  { apply (NoDup_lookup (fieldId <$> fs) i j (fieldId f)); [done| |].
    - by rewrite list_lookup_fmap, Hi.
    - by rewrite list_lookup_fmap, Hj, <- Hid. }
  congruence.
Qed.

Lemma all_fields_member data section f :
  section ∈ sections data → f ∈ fields section → f ∈ all_fields data.
Proof.
  unfold all_fields. intros Hs Hf.
  apply list_elem_of_In, in_concat. exists (fields section).
  split; [|by apply list_elem_of_In].
  apply in_map. by apply list_elem_of_In.
Qed.

Lemma initialValue_cases f :
  (type f = "checkbox" → options f ≠ None → initialValue f = VArr []) ∧
  (type f = "checkbox" → options f = None → initialValue f = VBool false) ∧
  (type f ≠ "checkbox" → initialValue f = VStr "").
Proof.
  unfold initialValue, is_checkbox, has_options.
  destruct (String.eqb_spec (type f) "checkbox") as [Ht|Ht];
    destruct (options f); simpl; repeat split; congruence.
Qed.

End Initialisation.

(** C7: once the schema has arrived, the value map has an entry for the
    identifier of every field of every section, and no others; the entry
    is the initial value of a field carrying that identifier, hence, with
    identifiers unique across the schema, of the field itself: the empty
    sequence for a checkbox with options, [false] for a checkbox without,
    the empty string for any other type. *)
Theorem initialValues_cover_schema (st : FormState) data section field :
  section ∈ sections data → field ∈ fields section →
  let values := formValues (fst (fetchFormData_settle (Resolved data) st)) in
  values = initialValues data ∧
  (∃ g, g ∈ all_fields data ∧ fieldId g = fieldId field ∧
        values !! fieldId field = Some (initialValue g)) ∧
  (NoDup (fieldId <$> all_fields data) →
     values !! fieldId field = Some (initialValue field)) ∧
  (∀ fid, is_Some (values !! fid) → ∃ g, g ∈ all_fields data ∧ fieldId g = fid) ∧
  ((type field = "checkbox" → options field ≠ None →
      initialValue field = VArr []) ∧
   (type field = "checkbox" → options field = None →
      initialValue field = VBool false) ∧
   (type field ≠ "checkbox" → initialValue field = VStr "")).
Proof.
  intros Hs Hf values. subst values. simpl.
  pose proof (all_fields_member data section field Hs Hf) as Hin.
  rewrite initialValues_flat.
  split; [done|]. split.
  { destruct (init_fields_lookup_member _ _ Hin) as [value Hv].
    rewrite Hv.
    apply init_fields_lookup_Some in Hv as (g & Hg & Hid & ->). by exists g. }
  split; [intros Hnd; by apply init_fields_lookup_unique|].
  split; [|apply initialValue_cases].
  intros fid [value Hv].
  apply init_fields_lookup_Some in Hv as (g & Hg & Hid & _). by exists g.
Qed.

Lemma initialValues_cover_schema_witness :
  formValues (state_of [Settle (Resolved sample_form)]) !! "skills"
    = Some (VArr []) ∧
  formValues (state_of [Settle (Resolved sample_form)]) !! "agree"
    = Some (VBool false) ∧
  formValues (state_of [Settle (Resolved sample_form)]) !! "bio"
    = Some (VStr "").
Proof.
  assert (mkSection "s2" "Details" [f_skills; f_agree; f_bio]
            ∈ sections sample_form) as Hs by repeat constructor.
  assert (NoDup (fieldId <$> all_fields sample_form)) as Hnd by compute_done.
  split; [|split].
  - destruct (initialValues_cover_schema initialState sample_form _ f_skills Hs)
      as (_ & _ & H & _); [repeat constructor|]. exact (H Hnd).
  - destruct (initialValues_cover_schema initialState sample_form _ f_agree Hs)
      as (_ & _ & H & _); [repeat constructor|]. exact (H Hnd).
  - destruct (initialValues_cover_schema initialState sample_form _ f_bio Hs)
      as (_ & _ & H & _); [repeat constructor|]. exact (H Hnd).
Defined.

(** * Further properties of the form screen *)

(** ** Validation at the edges *)

(** X1: section validation throws exactly when a schema is loaded and the
    index names none of its sections; with no schema loaded it returns
    [false] and leaves the state as it is. *)
Theorem validateSection_throws_iff (i : nat) (st : FormState) :
  (validateSection i st = None ↔
     ∃ data, formData st = Some data ∧ (length (sections data) ≤ i)%nat) ∧
  (formData st = None → validateSection i st = Some (false, st)).
Proof.
  unfold validateSection. split.
  - destruct (formData st) as [data|].
    + destruct (sections data !! i) as [section|] eqn:Hi.
      * rewrite (validate_fields_pair (formValues st) (fields section)).
        split; [done|]. intros (d & [= <-] & Hlen).
        apply lookup_ge_None_2 in Hlen. congruence.
      * split; [|done]. intros _. exists data. split; [done|].
        by apply lookup_ge_None.
    + split; [done|]. by intros (d & Hd & _).
  - by intros ->.
Qed.

Lemma required_message_nonempty field : required_message field ≠ "".
Proof.
  unfold required_message. destruct (validation field) as [v|]; [|done].
  destruct (truthy_string (message v)) eqn:Ht; [|done].
  by apply truthy_string_true.
Qed.

(** X2: a required field whose value is absent, the empty string or the
    empty sequence never passes: the message is non-empty even when the
    schema supplies an empty custom message, and no length bound is
    consulted. *)
Theorem required_missing_never_passes (values : FormValues) (field : FormField) :
  required field = true →
  (values !! fieldId field = None ∨
   values !! fieldId field = Some (VStr "") ∨
   values !! fieldId field = Some (VArr [])) →
  validateField values field ≠ "" ∧
  validateField values field = required_message field ∧
  (∀ lower upper,
     validateField values
       (mkField (fieldId field) (label field) (type field) true lower upper
          (options field) (validation field))
     = validateField values field).
Proof.
  intros Hreq Hmiss.
  assert (is_missing (values !! fieldId field) = true) as Hm
    by (by apply is_missing_true).
  assert (validateField values field = required_message field) as Heq.
  { unfold validateField. by rewrite Hreq, Hm. }
  split; [rewrite Heq; apply required_message_nonempty|].
  split; [done|].
  intros lower upper. rewrite Heq. unfold validateField. simpl. by rewrite Hm.
Qed.

Lemma required_missing_never_passes_witness :
  validateField ∅
    (mkField "bio" "Bio" "text" true None None None (Some (mkValidation "")))
  ≠ "".
Proof.
  apply (required_missing_never_passes ∅
           (mkField "bio" "Bio" "text" true None None None
              (Some (mkValidation "")))).
  - reflexivity.
  - left. reflexivity.
Defined.

(** X3: the length bounds apply to strings only: a boolean and a
    non-empty sequence pass whatever the bounds and whether or not the
    field is required. *)
Theorem non_string_values_pass (values : FormValues) (field : FormField) :
  (∃ b, values !! fieldId field = Some (VBool b)) ∨
  (∃ l, values !! fieldId field = Some (VArr l) ∧ l ≠ []) →
  validateField values field = "".
Proof.
  unfold validateField, below_min, above_max.
  intros [[b ->]|(l & -> & Hl)]; simpl.
  - rewrite andb_false_r. by destruct (minLength field), (maxLength field).
  - destruct l as [|x l]; [done|]. simpl. rewrite andb_false_r.
    by destruct (minLength field), (maxLength field).
Qed.

Lemma non_string_values_pass_witness :
  validateField {[ "skills" := VArr ["js"; "ml"; "c"] ]}
    (mkField "skills" "Skills" "checkbox" true (Some 10) (Some 1) None None)
  = "".
Proof.
  apply non_string_values_pass. right. exists ["js"; "ml"; "c"].
  split; [reflexivity|discriminate].
Defined.

(** X4: an edit changes the verdict of no field with another identifier,
    and the edited field is judged on the new value alone. *)
Theorem edit_affects_only_own_validation (st : FormState) fid value field :
  (fieldId field ≠ fid →
     validateField (formValues (handleFieldChange fid value st)) field
     = validateField (formValues st) field) ∧
  (fieldId field = fid →
     validateField (formValues (handleFieldChange fid value st)) field
     = validateField {[ fid := value ]} field).
Proof.
  rewrite handleFieldChange_values. unfold validateField. split.
  - intros Hne. by rewrite lookup_insert_ne.
  - intros ->. by rewrite lookup_insert_eq, lookup_singleton_eq.
Qed.

Lemma edit_affects_only_own_validation_witness :
  validateField
    (formValues (handleFieldChange "bio" (VStr "much too long")
                   (state_of short_name_events))) f_name
  = validateField (formValues (state_of short_name_events)) f_name.
Proof.
  apply (edit_affects_only_own_validation (state_of short_name_events)
           "bio" (VStr "much too long") f_name).
  discriminate.
Defined.

(** ** Next and Submit at the edges *)

(** X5: one failing field in the current section stops a submission: the
    summary flag, the section index and the value map stay as they were,
    nothing is written to the console, and the field has an entry in the
    new error map. *)
Theorem submit_blocked_by_failing_field (st : FormState) data section field :
  formData st = Some data →
  sections data !! currentSectionIndex st = Some section →
  field ∈ fields section → validateField (formValues st) field ≠ "" →
  ∃ st',
    handleSubmit st = Some (st', []) ∧
    showSubmissionModal st' = showSubmissionModal st ∧
    currentSectionIndex st' = currentSectionIndex st ∧
    formValues st' = formValues st ∧
    ∃ text, formErrors st' !! fieldId field = Some text ∧ text ≠ "".
Proof.
  intros Hd Hs Hin Hfail.
  pose proof (validateSection_loaded st data _ section Hd Hs) as Hv.
  destruct (validate_fields_lookup_failing (formValues st) _ field Hin Hfail)
    as [text Ht].
  rewrite bool_decide_eq_false_2 in Hv.
  2: { intros Hempty. rewrite Hempty, lookup_empty in Ht. done. }
  eexists. split; [unfold handleSubmit; by rewrite Hd, Hv|].
  repeat split. exists text. split; [done|].
  by apply validate_fields_lookup_Some in Ht as (g & _ & _ & _ & Hne).
Qed.

Lemma submit_blocked_by_failing_field_witness :
  ∃ st',
    handleSubmit (state_of [Settle (Resolved sample_form)]) = Some (st', []) ∧
    showSubmissionModal st' = false.
Proof.
  destruct (submit_blocked_by_failing_field
              (state_of [Settle (Resolved sample_form)]) sample_form
              (mkSection "s1" "Identity" [f_name]) f_name eq_refl eq_refl)
    as (st' & Hsub & Hmodal & _).
  - repeat constructor.
  - vm_compute. discriminate.
  - exists st'. split; [exact Hsub|]. rewrite Hmodal. reflexivity.
Defined.

(** X6: on the last section "Next" validates but never moves and never
    scrolls, whether or not the section is valid. *)
Theorem next_on_last_section_stays (st : FormState) data section :
  formData st = Some data →
  sections data !! currentSectionIndex st = Some section →
  S (currentSectionIndex st) = length (sections data) →
  ∃ isValid newErrors,
    validateSection (currentSectionIndex st) st
      = Some (isValid, set_formErrors newErrors st) ∧
    handleNext st = Some (set_formErrors newErrors st, []).
Proof.
  intros Hd Hs Hlast.
  pose proof (validateSection_loaded st data _ section Hd Hs) as Hv.
  eexists _, _. split; [exact Hv|].
  unfold handleNext. rewrite Hd, Hv.
  assert ((Z.of_nat (currentSectionIndex st)
             <? Z.of_nat (length (sections data)) - 1) = false) as ->
    by (apply Z.ltb_ge; lia).
  by rewrite andb_false_r.
Qed.

Lemma next_on_last_section_stays_witness :
  ∃ st', handleNext (state_of complete_events) = Some (st', []) ∧
         currentSectionIndex st' = 1%nat.
Proof.
  destruct (next_on_last_section_stays (state_of complete_events) sample_form
              (mkSection "s2" "Details" [f_skills; f_agree; f_bio])
              eq_refl eq_refl eq_refl)
    as (isValid & newErrors & _ & Hnext).
  eexists. split; [exact Hnext|reflexivity].
Defined.

(** X7: only validation adds to the error map: after an edit, "Previous"
    or closing the summary, every entry of the error map was there
    before with the same message. *)
Theorem only_validation_adds_errors (ev : Event) (st st' : FormState) effects :
  match ev with Next | Submit | Settle _ => False | _ => True end →
  step ev st = Some (st', effects) →
  ∀ fid text, formErrors st' !! fid = Some text →
              formErrors st !! fid = Some text.
Proof.
  destruct ev as [r|k value| | | |]; simpl; try done; intros _.
  - intros [= <- <-] fid text.
    destruct (handleFieldChange_errors k value st) as [-> | ->]; [done|].
    rewrite lookup_delete_Some. tauto.
  - rewrite handlePrevious_state. by intros [= <- <-].
  - by intros [= <- <-].
Qed.

Lemma only_validation_adds_errors_witness :
  formErrors (state_of short_name_events) !! "name"
  = Some "Minimum length is 2 characters".
Proof.
  apply (only_validation_adds_errors (FieldChange "bio" (VStr "x"))
           (state_of short_name_events)
           (handleFieldChange "bio" (VStr "x") (state_of short_name_events)) []).
  - exact I.
  - reflexivity.
  - reflexivity.
Defined.

(** ** What a session keeps *)

Lemma handleFieldChange_rest fid value st :
  formData (handleFieldChange fid value st) = formData st ∧
  isLoading (handleFieldChange fid value st) = isLoading st ∧
  error (handleFieldChange fid value st) = error st ∧
  currentSectionIndex (handleFieldChange fid value st) = currentSectionIndex st ∧
  showSubmissionModal (handleFieldChange fid value st) = showSubmissionModal st.
Proof.
  unfold handleFieldChange.
  destruct (formErrors st !! fid) as [text|]; [|done].
  by destruct (truthy_string text).
Qed.

(** What a press of "Next" or "Submit" that returns has done. *)
Lemma handleNext_inv st st' effects data :
  formData st = Some data → handleNext st = Some (st', effects) →
  ∃ section,
    sections data !! currentSectionIndex st = Some section ∧
    formErrors st' = fst (validate_fields (formValues st) (fields section)) ∧
    formValues st' = formValues st ∧ formData st' = formData st ∧
    isLoading st' = isLoading st ∧ error st' = error st ∧
    showSubmissionModal st' = showSubmissionModal st ∧
    (currentSectionIndex st' = currentSectionIndex st ∨
     (currentSectionIndex st' = S (currentSectionIndex st) ∧
      (S (currentSectionIndex st) < length (sections data))%nat)).
Proof.
  intros Hd. unfold handleNext. rewrite Hd.
  destruct (sections data !! currentSectionIndex st) as [section|] eqn:Hs.
  - rewrite (validateSection_loaded st data _ section Hd Hs).
    intros Hstep. exists section. split; [done|]. revert Hstep.
    destruct (bool_decide _); simpl.
    + destruct (Z.ltb_spec (Z.of_nat (currentSectionIndex st))
                  (Z.of_nat (length (sections data)) - 1));
        intros [= <- <-]; simpl; repeat split; auto. right. lia.
    + intros [= <- <-]. simpl. repeat split; auto.
  - unfold validateSection. by rewrite Hd, Hs.
Qed.

Lemma handleSubmit_inv st st' effects data :
  formData st = Some data → handleSubmit st = Some (st', effects) →
  ∃ section,
    sections data !! currentSectionIndex st = Some section ∧
    formErrors st' = fst (validate_fields (formValues st) (fields section)) ∧
    formValues st' = formValues st ∧ formData st' = formData st ∧
    isLoading st' = isLoading st ∧ error st' = error st ∧
    currentSectionIndex st' = currentSectionIndex st.
Proof.
  intros Hd. unfold handleSubmit. rewrite Hd.
  destruct (sections data !! currentSectionIndex st) as [section|] eqn:Hs.
  - rewrite (validateSection_loaded st data _ section Hd Hs).
    intros Hstep. exists section. split; [done|]. revert Hstep.
    destruct (bool_decide _); intros [= <- <-]; simpl; repeat split; auto.
  - unfold validateSection. by rewrite Hd, Hs.
Qed.

Lemma session_ready data st :
  session data st →
  formData st = Some data ∧ isLoading st = false ∧ error st = None.
Proof.
  induction 1 as [|ev st st' effects _ IH Hev Hstep]; [done|].
  destruct IH as (Hd & Hl & He).
  destruct ev as [r|fid value| | | |]; simpl in *; try done.
  - injection Hstep as <- <-.
    destruct (handleFieldChange_rest fid value st) as (-> & -> & -> & _). done.
  - rewrite handlePrevious_state in Hstep. by injection Hstep as <- <-.
  - destruct (handleNext_inv _ _ _ _ Hd Hstep)
      as (section & _ & _ & _ & -> & -> & -> & _). done.
  - destruct (handleSubmit_inv _ _ _ _ Hd Hstep)
      as (section & _ & _ & _ & -> & -> & -> & _). done.
  - by injection Hstep as <- <-.
Qed.

Lemma session_index data st :
  session data st → sections data ≠ [] →
  (currentSectionIndex st < length (sections data))%nat.
Proof.
  intros Hs Hne. induction Hs as [|ev st st' effects Hs IH Hev Hstep].
  - simpl. destruct (sections data); [done|simpl; lia].
  - pose proof (session_ready data st Hs) as (Hd & _).
    destruct ev as [r|fid value| | | |]; simpl in *; try done.
    + injection Hstep as <- <-.
      destruct (handleFieldChange_rest fid value st) as (_ & _ & _ & -> & _).
      done.
    + rewrite handlePrevious_state in Hstep. injection Hstep as <- <-.
      simpl. lia.
    + destruct (handleNext_inv _ _ _ _ Hd Hstep)
        as (section & _ & _ & _ & _ & _ & _ & _ & [-> | [-> ?]]); done.
    + destruct (handleSubmit_inv _ _ _ _ Hd Hstep)
        as (section & _ & _ & _ & _ & _ & _ & ->). done.
    + by injection Hstep as <- <-.
Qed.

Lemma run_session data events st st' :
  session data st → forallb (λ ev, negb (is_settle ev)) events = true →
  run events st = Some st' → session data st'.
Proof.
  revert st. induction events as [|ev events IH]; intros st Hs; simpl.
  - by intros _ [= <-].
  - rewrite andb_true_iff, negb_true_iff. intros [Hev Hrest].
    destruct (step ev st) as [[st1 effects]|] eqn:Hstep; [|done].
    apply IH; [|done]. by apply (session_step data ev st st1 effects).
Qed.

(** X8: once a schema with at least one section has arrived, no handler
    throws whatever the user does, and the section index always names a
    section of the schema. *)
Theorem session_never_throws (data : FormResponse) (st : FormState) :
  session data st → sections data ≠ [] →
  (currentSectionIndex st < length (sections data))%nat ∧
  ∀ ev, is_Some (step ev st).
Proof.
  intros Hs Hne.
  pose proof (session_index data st Hs Hne) as Hidx.
  pose proof (session_ready data st Hs) as (Hd & _).
  split; [done|].
  destruct (lookup_lt_is_Some_2 _ _ Hidx) as [section Hsec].
  pose proof (validateSection_loaded st data _ section Hd Hsec) as Hv.
  intros [r|fid value| | | |]; simpl; try done.
  - unfold handleNext. rewrite Hd, Hv. by destruct (_ && _).
  - unfold handleSubmit. rewrite Hd, Hv. by destruct (bool_decide _).
Qed.

Lemma session_never_throws_witness :
  (currentSectionIndex (state_of complete_events) < 2)%nat ∧
  is_Some (step Submit (state_of complete_events)).
Proof.
  destruct (session_never_throws sample_form (state_of complete_events))
    as [Hidx Hstep].
  - apply (run_session sample_form
             [FieldChange "name" (VStr "Al"); Next;
              FieldChange "agree" (VBool true)] (loaded sample_form)).
    + apply session_loaded.
    + reflexivity.
    + vm_compute. reflexivity.
  - discriminate.
  - split; [exact Hidx|apply Hstep].
Defined.

(** X10: a schema without sections cannot be shown: the first render
    after it arrives throws, and so do "Next" and "Submit"; with at least
    one section none of them does. *)
Theorem empty_schema_breaks_screen (data : FormResponse) :
  (render (loaded data) = None ↔ sections data = []) ∧
  (handleNext (loaded data) = None ↔ sections data = []) ∧
  (handleSubmit (loaded data) = None ↔ sections data = []).
Proof.
  unfold render, render_form, handleNext, handleSubmit, validateSection, loaded.
  simpl.
  destruct (sections data) as [|section rest] eqn:Hs; simpl.
  - done.
  - destruct (validate_fields (initialValues data) (fields section))
      as [errs flag].
    repeat split; try done.
    + by destruct (flag && _).
    + by destruct flag.
Qed.

Lemma session_reachable data st : session data st → reachable st.
Proof.
  induction 1 as [|ev st st' effects _ IH _ Hstep].
  - apply (reach_step (Settle (Resolved data)) initialState _ []);
      [apply reach_init|done].
  - by apply (reach_step ev st st' effects).
Qed.

Lemma session_values data st :
  session data st →
  ∀ field, field ∈ all_fields data → is_Some (formValues st !! fieldId field).
Proof.
  induction 1 as [|ev st st' effects Hs IH Hev Hstep]; intros field Hin.
  - simpl. rewrite initialValues_flat. by apply init_fields_lookup_member.
  - pose proof (session_ready data st Hs) as (Hd & _).
    specialize (IH field Hin).
    destruct ev as [r|fid value| | | |]; simpl in *; try done.
    + injection Hstep as <- <-. rewrite handleFieldChange_values.
      rewrite lookup_insert_is_Some. destruct (decide (fid = fieldId field)); auto.
    + rewrite handlePrevious_state in Hstep. by injection Hstep as <- <-.
    + destruct (handleNext_inv _ _ _ _ Hd Hstep) as (section & _ & _ & -> & _).
      done.
    + destruct (handleSubmit_inv _ _ _ _ Hd Hstep) as (section & _ & _ & -> & _).
      done.
    + by injection Hstep as <- <-.
Qed.

(** X11: throughout a session every field of the schema keeps an entry
    in the value map: no edit, navigation or validation removes one. *)
Theorem session_values_cover_schema (data : FormResponse) (st : FormState)
    section field :
  session data st → section ∈ sections data → field ∈ fields section →
  is_Some (formValues st !! fieldId field).
Proof.
  intros Hs Hsec Hin. apply (session_values data st Hs).
  by apply all_fields_member with section.
Qed.

Lemma session_values_cover_schema_witness :
  is_Some (formValues (state_of complete_events) !! "bio").
Proof.
  apply (session_values_cover_schema sample_form (state_of complete_events)
           (mkSection "s2" "Details" [f_skills; f_agree; f_bio]) f_bio).
  - apply (run_session sample_form
             [FieldChange "name" (VStr "Al"); Next;
              FieldChange "agree" (VBool true)] (loaded sample_form)).
    + apply session_loaded.
    + reflexivity.
    + vm_compute. reflexivity.
  - repeat constructor.
  - repeat constructor.
Defined.

Lemma validate_fields_keys values fs fid :
  is_Some (fst (validate_fields values fs) !! fid) → fid ∈ map fieldId fs.
Proof.
  intros [text Ht].
  apply validate_fields_lookup_Some in Ht as (f & Hin & <- & _).
  apply list_elem_of_In, in_map. by apply list_elem_of_In.
Qed.

Lemma errors_within_delete data errors fid :
  errors_within data errors → errors_within data (delete fid errors).
Proof.
  intros [-> | (section & Hsec & Hkeys)].
  - left. apply delete_empty.
  - right. exists section. split; [done|].
    intros k [text Hk]. apply lookup_delete_Some in Hk as [_ Hk]. eauto.
Qed.

(** X12: at any moment of a session the error map holds entries of the
    fields of one section only (the one validated last), each with a
    non-empty message. *)
Theorem session_errors_one_section (data : FormResponse) (st : FormState) :
  session data st →
  (formErrors st = ∅ ∨
   ∃ section, section ∈ sections data ∧
     ∀ fid, is_Some (formErrors st !! fid) → fid ∈ map fieldId (fields section)) ∧
  (∀ fid text, formErrors st !! fid = Some text → text ≠ "").
Proof.
  intros Hs. split; [|apply reachable_errors_nonempty; by apply session_reachable with data].
  change (errors_within data (formErrors st)).
  induction Hs as [|ev st st' effects Hs IH Hev Hstep]; [by left|].
  pose proof (session_ready data st Hs) as (Hd & _).
  destruct ev as [r|fid value| | | |]; simpl in *; try done.
  - injection Hstep as <- <-.
    destruct (handleFieldChange_errors fid value st) as [-> | ->]; [done|].
    by apply errors_within_delete.
  - rewrite handlePrevious_state in Hstep. by injection Hstep as <- <-.
  - destruct (handleNext_inv _ _ _ _ Hd Hstep) as (section & Hsec & -> & _).
    right. exists section. split; [by apply list_elem_of_lookup_2 in Hsec|].
    apply validate_fields_keys.
  - destruct (handleSubmit_inv _ _ _ _ Hd Hstep) as (section & Hsec & -> & _).
    right. exists section. split; [by apply list_elem_of_lookup_2 in Hsec|].
    apply validate_fields_keys.
  - by injection Hstep as <- <-.
Qed.

Lemma session_errors_one_section_witness :
  formErrors (state_of short_name_events) !! "name"
    = Some "Minimum length is 2 characters" ∧
  "Minimum length is 2 characters" ≠ "".
Proof.
  split; [reflexivity|].
  destruct (session_errors_one_section sample_form (state_of short_name_events))
    as [_ Hne].
  - apply (run_session sample_form [FieldChange "name" (VStr "A"); Next]
             (loaded sample_form)).
    + apply session_loaded.
    + reflexivity.
    + vm_compute. reflexivity.
  - apply (Hne "name"). reflexivity.
Defined.

(** ** When the schema cannot be fetched *)

Lemma failed_step ev st :
  is_settle ev = false →
  formData st = None → isLoading st = false →
  error st = Some "Failed to load the form. Please try again later." →
  showSubmissionModal st = false → formErrors st = ∅ →
  ∃ st' effects,
    step ev st = Some (st', effects) ∧
    formData st' = None ∧ isLoading st' = false ∧
    error st' = Some "Failed to load the form. Please try again later." ∧
    showSubmissionModal st' = false ∧ formErrors st' = ∅.
Proof.
  intros Hev Hd Hl He Hm Herr.
  destruct ev as [r|fid value| | | |]; simpl in *; try done.
  - eexists _, _. split; [done|].
    destruct (handleFieldChange_rest fid value st) as (-> & -> & -> & _ & ->).
    repeat split; try done.
    destruct (handleFieldChange_errors fid value st) as [-> | ->]; [done|].
    rewrite Herr. apply delete_empty.
  - rewrite handlePrevious_state. by eexists _, _.
  - unfold handleNext. rewrite Hd. by eexists _, _.
  - unfold handleSubmit. rewrite Hd. by eexists _, _.
  - by eexists _, _.
Qed.

(** X13: a failed fetch is final for the mounted screen: whatever the
    user does afterwards, no handler throws, the view stays the error
    message, the summary never opens and no validation error is ever
    recorded. *)
Theorem fetch_failure_is_final (events : list Event) :
  forallb (λ ev, negb (is_settle ev)) events = true →
  ∃ st',
    run events failed = Some st' ∧
    render st'
      = Some (ErrorView "Failed to load the form. Please try again later.") ∧
    showSubmissionModal st' = false ∧ formErrors st' = ∅.
Proof.
  assert (∀ st,
    formData st = None → isLoading st = false →
    error st = Some "Failed to load the form. Please try again later." →
    showSubmissionModal st = false → formErrors st = ∅ →
    forallb (λ ev, negb (is_settle ev)) events = true →
    ∃ st', run events st = Some st' ∧
      render st'
        = Some (ErrorView "Failed to load the form. Please try again later.") ∧
      showSubmissionModal st' = false ∧ formErrors st' = ∅) as Hgen.
  { induction events as [|ev events IH]; intros st Hd Hl He Hm Herr; simpl.
    - intros _. exists st. split; [done|]. split; [|done].
      unfold render. by rewrite Hl, He.
    - rewrite andb_true_iff, negb_true_iff. intros [Hev Hrest].
      destruct (failed_step ev st Hev Hd Hl He Hm Herr)
        as (st1 & effects & -> & Hd1 & Hl1 & He1 & Hm1 & Herr1).
      by apply IH. }
  by apply Hgen.
Qed.

Lemma fetch_failure_is_final_witness :
  ∃ st',
    run [FieldChange "name" (VStr "A"); Next; Submit; Previous] failed = Some st' ∧
    render st'
      = Some (ErrorView "Failed to load the form. Please try again later.").
Proof.
  destruct (fetch_failure_is_final
              [FieldChange "name" (VStr "A"); Next; Submit; Previous])
    as (st' & Hrun & Hrender & _).
  - reflexivity.
  - exists st'. split; [exact Hrun|exact Hrender].
Defined.

(** ** What a failed "Next" puts on screen *)

Lemma NoDup_fmap_elem_inj {A B} (f : A → B) (l : list A) x y :
  NoDup (f <$> l) → x ∈ l → y ∈ l → f x = f y → x = y.
Proof.
  intros Hnd Hx Hy Heq.
  apply list_elem_of_lookup in Hx as [i Hi].
  apply list_elem_of_lookup in Hy as [j Hj].
  assert (i = j) as ->.
  { apply (NoDup_lookup (f <$> l) i j (f x)); [done| |].
    - by rewrite list_lookup_fmap, Hi.
    - by rewrite list_lookup_fmap, Hj, Heq. }
  congruence.
Qed.

Lemma validate_fields_lookup_passing values fs f :
  NoDup (fieldId <$> fs) → f ∈ fs → validateField values f = "" →
  fst (validate_fields values fs) !! fieldId f = None.
Proof.
  intros Hnd Hin Hpass.
  destruct (fst (validate_fields values fs) !! fieldId f) as [text|] eqn:E;
    [|done].
  apply validate_fields_lookup_Some in E as (g & Hg & Hid & Hm & Hne).
  assert (g = f) as -> by (by apply (NoDup_fmap_elem_inj fieldId fs)).
  congruence.
Qed.

(** X14: after a "Next" that fails, the section on screen is the same
    and every field of it is shown with its own message if it failed and
    with none if it passed (identifiers distinct within the section). *)
Theorem failed_next_shows_errors (st : FormState) data section :
  formData st = Some data → isLoading st = false → error st = None →
  sections data !! currentSectionIndex st = Some section →
  NoDup (fieldId <$> fields section) →
  (∃ field, field ∈ fields section ∧ validateField (formValues st) field ≠ "") →
  ∃ st' view modal,
    handleNext st = Some (st', []) ∧
    render st' = Some (FormView (formTitle data) view modal) ∧
    viewTitle view = title section ∧
    viewFields view =
      map (λ field,
             mkFieldProps field (displayedValue (formValues st) field)
               (if decide (validateField (formValues st) field = "") then None
                else Some (validateField (formValues st) field)))
          (fields section).
Proof.
  intros Hd Hl He Hs Hnd (bad & Hbad & Hfail).
  pose proof (validateSection_loaded st data _ section Hd Hs) as Hv.
  destruct (validate_fields_lookup_failing (formValues st) _ bad Hbad Hfail)
    as [text Ht].
  rewrite bool_decide_eq_false_2 in Hv.
  2: { intros Hempty. rewrite Hempty, lookup_empty in Ht. done. }
  eexists _, _, _.
  split; [unfold handleNext; by rewrite Hd, Hv|].
  split.
  { unfold render, render_form. simpl. rewrite Hl, He, Hd, Hs. reflexivity. }
  simpl. split; [done|].
  apply map_ext_in. intros f Hf%list_elem_of_In. f_equal.
  destruct (decide (validateField (formValues st) f = "")) as [Hp|Hf'].
  - by apply validate_fields_lookup_passing.
  - by apply validate_fields_lookup_unique.
Qed.

Lemma failed_next_shows_errors_witness :
  ∃ st' view modal,
    handleNext (state_of [Settle (Resolved sample_form);
                          FieldChange "bio" (VStr "much too long");
                          FieldChange "name" (VStr "Al"); Next])
      = Some (st', []) ∧
    render st' = Some (FormView "Registration" view modal) ∧
    map propError (viewFields view)
      = [None; None; Some "Maximum length is 5 characters"].
Proof.
  destruct (failed_next_shows_errors
              (state_of [Settle (Resolved sample_form);
                         FieldChange "bio" (VStr "much too long");
                         FieldChange "name" (VStr "Al"); Next])
              sample_form (mkSection "s2" "Details" [f_skills; f_agree; f_bio])
              eq_refl eq_refl eq_refl eq_refl)
    as (st' & view & modal & Hnext & Hrender & _ & Hfields).
  - compute_done.
  - exists f_bio. split; [repeat constructor|vm_compute; discriminate].
  - exists st', view, modal. split; [exact Hnext|]. split; [exact Hrender|].
    rewrite Hfields. vm_compute. reflexivity.
Defined.

(** ** Controls and well-shaped values *)

Lemma toggle_elem_of l v x :
  x ∈ toggle_option l v ↔ (x = v ∧ v ∉ l) ∨ (x ≠ v ∧ x ∈ l).
Proof.
  unfold toggle_option. case_bool_decide as Hin.
  - rewrite list_elem_of_filter. split.
    + intros [Hne Hx]. by right.
    + intros [[-> Hout]|[Hne Hx]]; [done|by split].
  - rewrite elem_of_app, list_elem_of_singleton. split.
    + intros [Hx| ->]; [|by left]. right. split; [|done]. by intros ->.
    + intros [[-> _]|[_ Hx]]; auto.
Qed.

(** X15: ticking a box of a checkbox group flips the membership of that
    option and of no other, keeps the order of the other selected
    options, and keeps a duplicate-free selection duplicate free; the
    box is drawn checked afterwards exactly when it was not before. *)
Theorem tick_flips_one_box (l : list string) (v : string) :
  ∃ l',
    handleCheckboxGroupChange (VArr l) v = Some l' ∧
    (v ∈ l' ↔ v ∉ l) ∧
    (∀ x, x ≠ v → (x ∈ l' ↔ x ∈ l)) ∧
    filter (λ x, x ≠ v) l' = filter (λ x, x ≠ v) l ∧
    (NoDup l → NoDup l') ∧
    includes_option (VArr l') v = negb <$> includes_option (VArr l) v ∧
    (∀ x, x ≠ v → includes_option (VArr l') x = includes_option (VArr l) x).
Proof.
  exists (toggle_option l v). split; [done|].
  assert (v ∈ toggle_option l v ↔ v ∉ l) as Hself.
  { rewrite toggle_elem_of. tauto. }
  assert (∀ x, x ≠ v → x ∈ toggle_option l v ↔ x ∈ l) as Hother.
  { intros x Hne. rewrite toggle_elem_of. tauto. }
  split; [done|]. split; [done|]. split.
  { destruct (decide (v ∈ l)) as [Hin|Hout].
    - rewrite (toggle_present l v Hin).
      apply filter_other_absent, filter_other_removes.
    - rewrite (toggle_absent l v Hout), filter_app.
      rewrite filter_cons_False by tauto. by rewrite filter_nil, app_nil_r. }
  split; [apply toggle_NoDup|]. split.
  - simpl. f_equal. destruct (decide (v ∈ l)) as [Hin|Hout].
    + rewrite (bool_decide_eq_true_2 (v ∈ l)) by done.
      apply bool_decide_eq_false_2. tauto.
    + rewrite (bool_decide_eq_false_2 (v ∈ l)) by done.
      apply bool_decide_eq_true_2. tauto.
  - intros x Hne. simpl. f_equal. apply bool_decide_ext. by apply Hother.
Qed.

(** X16: for a field with options that is not a checkbox (a dropdown or
    a radio group), as long as its stored value is absent or the empty
    string the control is handed the empty sequence, not the empty
    string that initialisation stored; a freshly initialised field of
    any other kind is handed its stored value. *)
Theorem displayed_value_of_fresh_field (values : FormValues) (field : FormField) :
  (is_checkbox field = false → options field ≠ None →
   (values !! fieldId field = None ∨ values !! fieldId field = Some (VStr "")) →
   displayedValue values field = VArr [] ∧ initialValue field = VStr "") ∧
  (values !! fieldId field = Some (initialValue field) →
   is_checkbox field = true ∨ options field = None →
   displayedValue values field = initialValue field).
Proof.
  unfold displayedValue, initialValue, has_options. split.
  - intros Hc Ho Hv. rewrite Hc. simpl.
    destruct (options field); [|done].
    by destruct Hv as [-> | ->].
  - intros Hv Hkind. rewrite Hv.
    destruct (is_checkbox field), (options field); simpl; try done.
    by destruct Hkind.
Qed.

Lemma displayed_value_of_fresh_field_witness :
  let gender :=
    mkField "gender" "Gender" "radio" false None None
      (Some [mkOption "f" "Female"; mkOption "m" "Male"]) None in
  displayedValue (initialValues (mkForm "t" [mkSection "s" "S" [gender]])) gender
  = VArr [].
Proof.
  intros gender.
  apply (displayed_value_of_fresh_field
           (initialValues (mkForm "t" [mkSection "s" "S" [gender]])) gender).
  - reflexivity.
  - discriminate.
  - right. reflexivity.
Defined.

Lemma render_boxes_sequence l os :
  render_boxes (VArr l) os = Some (map (λ o, (o, bool_decide (o ∈ l))) os).
Proof. induction os as [|o os IH]; [done|]. simpl. by rewrite IH. Qed.

Lemma initialValue_shaped field : well_shaped field (initialValue field).
Proof.
  unfold well_shaped, initialValue, has_options.
  destruct (is_checkbox field), (options field) as [opts|]; simpl.
  - exists []. split; [done|]. split; [apply NoDup_nil_2|].
    intros o Ho. by apply elem_of_nil in Ho.
  - by exists false.
  - by exists "".
  - by exists "".
Qed.

Lemma handleChange_shaped field e :
  options field = None ∨ is_checkbox field = false →
  fst (handleChange field e) = fieldId field ∧
  well_shaped field (snd (handleChange field e)).
Proof.
  unfold handleChange, well_shaped. intros Hkind.
  destruct (is_checkbox field) eqn:Hc; simpl.
  - destruct Hkind as [-> |]; [|done]. split; [done|]. by eexists.
  - split; [done|]. by eexists.
Qed.

Lemma renderField_not_checkbox field value :
  is_checkbox field = false →
  (∃ t, renderField field value = Some (InputControl t value)) ∨
  renderField field value = Some (TextAreaControl value) ∨
  renderField field value
    = Some (SelectControl value ("" :: option_values field)) ∨
  renderField field value
    = Some (RadioControl
              (map (λ o, (o, is_selected value o)) (option_values field))) ∨
  renderField field value = Some (UnsupportedControl (type field)).
Proof.
  unfold is_checkbox, renderField. intros ->.
  destruct (_ || _); [left; by eexists|].
  destruct (String.eqb (type field) "textarea"); [auto|].
  destruct (String.eqb (type field) "dropdown"); [auto|].
  destruct (String.eqb (type field) "radio"); auto.
Qed.

Lemma renderField_checkbox field value :
  is_checkbox field = true →
  renderField field value =
  match options field with
  | Some opts =>
      match render_boxes value (map optValue opts) with
      | Some boxes => Some (CheckboxGroupControl boxes)
      | None => None
      end
  | None => Some (CheckboxControl value)
  end.
Proof.
  unfold is_checkbox, renderField. intros Hc.
  apply String.eqb_eq in Hc. by rewrite Hc.
Qed.

(** A gesture on a field whose stored value is well shaped stores a well
    shaped value under the identifier of that field. *)
Lemma fieldGesture_shaped values field g fid value :
  (∃ stored, values !! fieldId field = Some stored ∧ well_shaped field stored) →
  fieldGesture field (displayedValue values field) g = Some (fid, value) →
  fid = fieldId field ∧ well_shaped field value.
Proof.
  intros (stored & Hst & Hshape). unfold fieldGesture.
  destruct (is_checkbox field) eqn:Hc.
  - rewrite (renderField_checkbox _ _ Hc).
    unfold well_shaped in *. rewrite Hc in *.
    destruct (options field) as [opts|] eqn:Ho.
    + destruct Hshape as (l & -> & Hnd & Hsub).
      assert (displayedValue values field = VArr l) as ->.
      { unfold displayedValue. by rewrite Hst. }
      rewrite render_boxes_sequence.
      destruct g as [text|c|b|o]; try done.
      case_bool_decide as Hin; [|done]. simpl.
      intros [= <- <-]. split; [done|].
      exists (toggle_option l o). split; [done|].
      split; [by apply toggle_NoDup|].
      intros x Hx. apply toggle_elem_of in Hx as [[-> _]|[_ Hx]]; [|auto].
      rewrite map_map in Hin. simpl in Hin. by rewrite map_id in Hin.
    + destruct g as [text|c|b|o]; try done.
      intros [= He]. unfold handleChange in He. rewrite Hc in He.
      injection He as <- <-. split; [done|]. by eexists.
  - assert (∀ e, Some (handleChange field e) = Some (fid, value) →
              fid = fieldId field ∧ well_shaped field value) as Hemit.
    { intros e [= He].
      destruct (handleChange_shaped field e (or_intror Hc)) as [H1 H2].
      rewrite He in H1, H2. simpl in *. by subst. }
    destruct (renderField_not_checkbox field (displayedValue values field) Hc)
      as [[t ->]|[-> |[-> |[-> | ->]]]].
    + destruct g; try done. apply Hemit.
    + destruct g; try done. apply Hemit.
    + destruct g; try done. case_bool_decide; [apply Hemit|done].
    + destruct g; try done. case_bool_decide; [apply Hemit|done].
    + by destruct g.
Qed.

Lemma press_values ev st st' effects :
  is_press ev = true → step ev st = Some (st', effects) →
  formValues st' = formValues st.
Proof.
  destruct ev as [r|fid value| | | |]; simpl; try done; intros _.
  - rewrite handlePrevious_state. by intros [= <- <-].
  - unfold handleNext, validateSection.
    destruct (formData st) as [data|]; [|by intros [= <- <-]].
    destruct (sections data !! currentSectionIndex st) as [section|]; [|done].
    destruct (validate_fields _ _) as [errs flag].
    destruct (flag && _); by intros [= <- <-].
  - unfold handleSubmit, validateSection.
    destruct (formData st) as [data|]; [|by intros [= <- <-]].
    destruct (sections data !! currentSectionIndex st) as [section|]; [|done].
    destruct (validate_fields _ _) as [errs flag].
    destruct flag; by intros [= <- <-].
  - by intros [= <- <-].
Qed.

Lemma ui_session_session data st : ui_session data st → session data st.
Proof.
  induction 1 as [|st section field g fid value _ IH _ _ _
                  |ev st st' effects _ IH Hev Hstep].
  - apply session_loaded.
  - by apply (session_step data (FieldChange fid value) st _ []).
  - apply (session_step data ev st st' effects); [done| |done].
    by destruct ev.
Qed.

Lemma section_fields_member data i section field :
  sections data !! i = Some section → field ∈ fields section →
  field ∈ all_fields data.
Proof.
  intros Hs Hf. apply all_fields_member with section; [|done].
  by apply list_elem_of_lookup_2 in Hs.
Qed.

Lemma ui_session_shaped data st :
  NoDup (fieldId <$> all_fields data) → ui_session data st →
  ∀ field, field ∈ all_fields data →
    ∃ stored, formValues st !! fieldId field = Some stored ∧
              well_shaped field stored.
Proof.
  intros Hnd.
  induction 1 as [|st section edited g fid value Hs IH Hsec Hin Hg
                  |ev st st' effects Hs IH Hev Hstep]; intros field Hfield.
  - exists (initialValue field). split; [|apply initialValue_shaped].
    simpl. rewrite initialValues_flat. by apply init_fields_lookup_unique.
  - pose proof (section_fields_member _ _ _ _ Hsec Hin) as Hedited.
    destruct (fieldGesture_shaped _ _ _ _ _ (IH edited Hedited) Hg)
      as [-> Hshape].
    rewrite handleFieldChange_values.
    destruct (decide (fieldId edited = fieldId field)) as [Heq|Hne].
    + assert (edited = field) as ->
        by (by apply (NoDup_fmap_elem_inj fieldId (all_fields data))).
      exists value. by rewrite lookup_insert_eq.
    + rewrite lookup_insert_ne by done. by apply IH.
  - rewrite (press_values ev st st' effects Hev Hstep). by apply IH.
Qed.

(** X17: when the identifiers of the schema are distinct, every value a
    session driven through the controls stores has the shape of its
    field: a duplicate-free sequence of the field's own option values
    for a checkbox with options, a boolean for a checkbox without, a
    string for every other type. *)
Theorem ui_session_values_well_shaped (data : FormResponse) (st : FormState)
    section field :
  NoDup (fieldId <$> all_fields data) → ui_session data st →
  section ∈ sections data → field ∈ fields section →
  ∃ stored,
    formValues st !! fieldId field = Some stored ∧
    (type field = "checkbox" → ∀ opts, options field = Some opts →
       ∃ l, stored = VArr l ∧ NoDup l ∧ ∀ o, o ∈ l → o ∈ map optValue opts) ∧
    (type field = "checkbox" → options field = None → ∃ b, stored = VBool b) ∧
    (type field ≠ "checkbox" → ∃ s, stored = VStr s).
Proof.
  intros Hnd Hs Hsec Hin.
  destruct (ui_session_shaped data st Hnd Hs field) as (stored & Hst & Hshape).
  { by apply all_fields_member with section. }
  exists stored. split; [done|].
  unfold well_shaped, is_checkbox in Hshape.
  destruct (String.eqb_spec (type field) "checkbox") as [Ht|Ht].
  - split; [|split]; [| |done].
    + intros _ opts Ho. by rewrite Ho in Hshape.
    + intros _ Ho. by rewrite Ho in Hshape.
  - split; [done|]. split; [done|]. by intros _.
Qed.

Lemma ticked_state_session : ui_session sample_form ticked_state.
Proof.
  assert (ui_session sample_form named_state) as H1.
  { apply (ui_gesture sample_form (loaded sample_form)
             (mkSection "s1" "Identity" [f_name]) f_name (Enter "Al")
             "name" (VStr "Al")).
    - apply ui_loaded.
    - reflexivity.
    - repeat constructor.
    - reflexivity. }
  assert (ui_session sample_form second_section_state) as H2.
  { apply (ui_press sample_form Next named_state second_section_state
             [ScrollToTop] H1); [reflexivity|].
    vm_compute. reflexivity. }
  apply (ui_gesture sample_form second_section_state
           (mkSection "s2" "Details" [f_skills; f_agree; f_bio]) f_skills
           (Tick "js") "skills" (VArr ["js"]) H2).
  - reflexivity.
  - repeat constructor.
  - vm_compute. reflexivity.
Qed.

Lemma ui_session_values_well_shaped_witness :
  ∃ stored, formValues ticked_state !! "skills" = Some stored ∧
            ∃ l, stored = VArr l ∧ NoDup l.
Proof.
  destruct (ui_session_values_well_shaped sample_form ticked_state
              (mkSection "s2" "Details" [f_skills; f_agree; f_bio]) f_skills)
    as (stored & Hst & Hgroup & _).
  - compute_done.
  - apply ticked_state_session.
  - repeat constructor.
  - repeat constructor.
  - exists stored. split; [exact Hst|].
    destruct (Hgroup eq_refl _ eq_refl) as (l & Hl & Hnd & _).
    exists l. split; [exact Hl|exact Hnd].
Defined.

(** X18: in such a session drawing a field of the section on screen
    never throws, and every box of a checkbox group can be ticked: the
    group is handed a sequence, and the tick stores that sequence with
    the option toggled. *)
Theorem ui_controls_never_throw (data : FormResponse) (st : FormState)
    section field :
  NoDup (fieldId <$> all_fields data) → ui_session data st →
  sections data !! currentSectionIndex st = Some section →
  field ∈ fields section →
  is_Some (renderField field (displayedValue (formValues st) field)) ∧
  (type field = "checkbox" → ∀ opts o,
     options field = Some opts → o ∈ map optValue opts →
     ∃ l,
       displayedValue (formValues st) field = VArr l ∧
       handleCheckboxGroupChange (displayedValue (formValues st) field) o
         = Some (toggle_option l o) ∧
       fieldGesture field (displayedValue (formValues st) field) (Tick o)
         = Some (fieldId field, VArr (toggle_option l o))).
Proof.
  intros Hnd Hs Hsec Hin.
  destruct (ui_session_shaped data st Hnd Hs field) as (stored & Hst & Hshape).
  { by apply (section_fields_member data (currentSectionIndex st) section). }
  unfold well_shaped in Hshape.
  destruct (is_checkbox field) eqn:Hc.
  - destruct (options field) as [opts|] eqn:Ho.
    + destruct Hshape as (l & -> & Hl & Hsub).
      assert (displayedValue (formValues st) field = VArr l) as Hd.
      { unfold displayedValue. by rewrite Hst. }
      split.
      * rewrite (renderField_checkbox _ _ Hc), Ho, Hd, render_boxes_sequence.
        done.
      * intros _ opts' o [= <-] Ho'. exists l. split; [done|].
        rewrite Hd. split; [done|].
        unfold fieldGesture.
        rewrite (renderField_checkbox _ _ Hc), Ho, render_boxes_sequence.
        rewrite bool_decide_eq_true_2; [done|].
        rewrite map_map. simpl. by rewrite map_id.
    + split; [by rewrite (renderField_checkbox _ _ Hc), Ho|].
      by intros _ opts o.
  - split.
    + destruct (renderField_not_checkbox field
                  (displayedValue (formValues st) field) Hc)
        as [[t ->]|[-> |[-> |[-> | ->]]]]; done.
    + intros Ht. unfold is_checkbox in Hc. rewrite Ht in Hc. done.
Qed.

Lemma ui_controls_never_throw_witness :
  fieldGesture f_skills (displayedValue (formValues ticked_state) f_skills)
    (Tick "ml")
  = Some ("skills", VArr ["js"; "ml"]).
Proof.
  destruct (ui_controls_never_throw sample_form ticked_state
              (mkSection "s2" "Details" [f_skills; f_agree; f_bio]) f_skills)
    as [_ Htick].
  - compute_done.
  - apply ticked_state_session.
  - reflexivity.
  - repeat constructor.
  - destruct (Htick eq_refl _ "ml" eq_refl) as (l & Hd & _ & Hg).
    + compute_done.
    + rewrite Hg. vm_compute in Hd. injection Hd as <-. reflexivity.
Defined.

(** ** The screen as a whole *)

Lemma ui_session_renderField data st section field :
  NoDup (fieldId <$> all_fields data) → ui_session data st →
  sections data !! currentSectionIndex st = Some section →
  field ∈ fields section →
  is_Some (renderField field (displayedValue (formValues st) field)).
Proof.
  intros Hnd Hs Hsec Hin.
  destruct (ui_session_shaped data st Hnd Hs field) as (stored & Hst & Hshape).
  { by apply (section_fields_member data (currentSectionIndex st) section). }
  unfold well_shaped in Hshape.
  destruct (is_checkbox field) eqn:Hc.
  - rewrite (renderField_checkbox _ _ Hc).
    destruct (options field) as [opts|]; [|done].
    destruct Hshape as (l & -> & _).
    assert (displayedValue (formValues st) field = VArr l) as ->.
    { unfold displayedValue. by rewrite Hst. }
    by rewrite render_boxes_sequence.
  - destruct (renderField_not_checkbox field
                (displayedValue (formValues st) field) Hc)
      as [[t ->]|[-> |[-> |[-> | ->]]]]; done.
Qed.

(** X9: in a session driven through the controls, over a schema with
    distinct identifiers and at least one section, the screen always
    shows the form and drawing it never throws: there is one control for
    each field of the section, the indicator reads "Section i of N" with
    1 ≤ i ≤ N, "Previous" is disabled exactly on the first section, the
    primary button is Submit exactly on the last one and Next otherwise,
    and the summary is on screen exactly while its flag is set. *)
Theorem session_shows_form (data : FormResponse) (st : FormState) :
  NoDup (fieldId <$> all_fields data) → ui_session data st →
  sections data ≠ [] →
  ∃ view modal controls,
    render_screen st = Some (FormView (formTitle data) view modal, controls) ∧
    render st = Some (FormView (formTitle data) view modal) ∧
    length controls = length (viewFields view) ∧
    (∃ section, sections data !! currentSectionIndex st = Some section ∧
                length controls = length (fields section)) ∧
    viewPosition view
      = (Z.of_nat (currentSectionIndex st) + 1, Z.of_nat (length (sections data))) ∧
    1 ≤ fst (viewPosition view) ≤ snd (viewPosition view) ∧
    (previousDisabled view = true ↔ fst (viewPosition view) = 1) ∧
    (primaryButton view = SubmitButton ↔
       fst (viewPosition view) = snd (viewPosition view)) ∧
    (primaryButton view = NextButton ↔
       fst (viewPosition view) < snd (viewPosition view)) ∧
    (is_Some modal ↔ showSubmissionModal st = true).
Proof.
  intros Hnd Hui Hne.
  pose proof (ui_session_session data st Hui) as Hs.
  pose proof (session_index data st Hs Hne) as Hidx.
  pose proof (session_ready data st Hs) as (Hd & Hl & He).
  destruct (lookup_lt_is_Some_2 _ _ Hidx) as [section Hsec].
  assert (render st = Some (FormView (formTitle data)
            (FormSection_render section (formValues st) (formErrors st)
               (currentSectionIndex st) (length (sections data))
               (Z.of_nat (currentSectionIndex st) =?
                  Z.of_nat (length (sections data)) - 1))
            (if showSubmissionModal st then renderSubmissionModal st else None)))
    as Hrender.
  { unfold render, render_form. by rewrite Hl, He, Hd, Hsec. }
  destruct (mapM_is_Some_2
              (λ props, renderField (propField props) (propValue props))
              (viewFields
                 (FormSection_render section (formValues st) (formErrors st)
                    (currentSectionIndex st) (length (sections data))
                    (Z.of_nat (currentSectionIndex st) =?
                       Z.of_nat (length (sections data)) - 1))))
    as [controls Hcontrols].
  { simpl. apply Forall_map, Forall_forall. intros field Hin. simpl.
    by apply (ui_session_renderField data st section). }
  pose proof (length_mapM _ _ _ Hcontrols) as Hlen.
  eexists _, _, controls.
  split.
  { unfold render_screen, render_controls. by rewrite Hrender, Hcontrols. }
  split; [exact Hrender|]. split; [done|].
  split.
  { exists section. split; [done|]. rewrite <- Hlen. simpl. apply length_map. }
  simpl. split; [done|]. split; [lia|]. split; [lia|].
  split; [|split].
  - destruct (Z.eqb_spec (Z.of_nat (currentSectionIndex st))
                (Z.of_nat (length (sections data)) - 1)); split; try done; lia.
  - destruct (Z.eqb_spec (Z.of_nat (currentSectionIndex st))
                (Z.of_nat (length (sections data)) - 1)); split; try done; lia.
  - unfold renderSubmissionModal. rewrite Hd.
    destruct (showSubmissionModal st); split; done.
Qed.

Lemma session_shows_form_witness :
  ∃ view modal controls,
    render_screen ticked_state
      = Some (FormView "Registration" view modal, controls) ∧
    viewPosition view = (2, 2) ∧
    length controls = 3%nat.
Proof.
  destruct (session_shows_form sample_form ticked_state)
    as (view & modal & controls & Hscreen & _ & _ & (section & Hsec & Hlen)
        & Hpos & _).
  - compute_done.
  - apply ticked_state_session.
  - discriminate.
  - exists view, modal, controls. split; [exact Hscreen|].
    split; [exact Hpos|].
    rewrite Hlen. vm_compute in Hsec. injection Hsec as <-. reflexivity.
Defined.

(** ** Logging in *)

Lemma createUser_success_iff (o : Login.HttpOutcome) :
  Login.success (Login.createUser_settle o) = true ↔
  ∃ text, o = Login.Responded true (Login.Parsed text).
Proof.
  destruct o as [[] [reason|text]|[reason|]]; simpl; split; try done.
  - by intros [? ?].
  - intros _. by exists text.
  - by intros [? ?].
  - by intros [? ?].
  - by intros [? ?].
  - by intros [? ?].
Qed.


(** X20: a login attempt hands the entered user on exactly when both
    fields are non-blank and the service answered with an ok status and
    a readable body; an ok answer whose body cannot be read does not log
    in and shows the message of the error thrown. The attempt ends
    without an error message exactly when it logged in, never changes
    the entered user, and once a request was sent the form is no longer
    loading. *)
Theorem login_succeeds_iff (st : Login.State) (o : Login.HttpOutcome) :
  let result := LoginSession.submit st o in
  let filled :=
    Login.trim (Login.rollNumber (Login.user st)) ≠ "" ∧
    Login.trim (Login.name (Login.user st)) ≠ "" in
  (snd result = Some (Login.user st) ↔
     filled ∧ ∃ text, o = Login.Responded true (Login.Parsed text)) ∧
  (snd result = None ∨ snd result = Some (Login.user st)) ∧
  (Login.error (fst result) = None ↔ is_Some (snd result)) ∧
  Login.user (fst result) = Login.user st ∧
  (filled → Login.isLoading (fst result) = false) ∧
  (¬ filled →
     fst result = Login.mkLogin (Login.user st) (Login.isLoading st)
                    (Some "Both Roll Number and Name are required")) ∧
  (filled → ∀ ok reason, o = Login.Responded ok (Login.Unreadable reason) →
     snd result = None ∧ Login.error (fst result) = Some reason).
Proof.
  intros result filled. subst result filled. unfold LoginSession.submit.
  destruct (decide (Login.trim (Login.rollNumber (Login.user st)) = ""))
    as [Hr|Hr];
    [|destruct (decide (Login.trim (Login.name (Login.user st)) = ""))
        as [Hn|Hn]].
  - rewrite (handleSubmit_blank st) by (by left). simpl.
    split; [split; [done|tauto]|]. split; [by left|].
    split; [split; [done|by intros [? ?]]|]. split; [done|].
    split; [tauto|]. split; [done|]. by intros [? ?].
  - rewrite (handleSubmit_blank st) by (by right). simpl.
    split; [split; [done|tauto]|]. split; [by left|].
    split; [split; [done|by intros [? ?]]|]. split; [done|].
    split; [tauto|]. split; [done|]. by intros [? ?].
  - rewrite (handleSubmit_filled st Hr Hn). unfold Login.handleSubmit_resume.
    pose proof (createUser_success_iff o) as Hsucc.
    destruct (Login.success (Login.createUser_settle o)) eqn:Hs; simpl.
    + assert (∃ text, o = Login.Responded true (Login.Parsed text)) as Hok
        by (by apply Hsucc).
      split; [split; [by intros _|done]|]. split; [by right|].
      split; [split; [by eexists|done]|]. split; [done|].
      split; [done|]. split; [tauto|].
      intros _ ok reason ->. by destruct ok.
    + assert (¬ ∃ text, o = Login.Responded true (Login.Parsed text)) as Hno.
      { intros H. apply Hsucc in H. done. }
      split; [split; [done|tauto]|]. split; [by left|].
      split; [split; [done|by intros [? ?]]|]. split; [done|].
      split; [done|]. split; [tauto|].
      intros _ ok reason ->. split; [done|]. by destruct ok.
Qed.

(** X21: no request is sent exactly when the roll number or the name
    consists of white space only (the empty string included). *)
Theorem login_rejects_whitespace_only (st : Login.State) :
  Login.createUser_calls (Login.handleSubmit st) = [] ↔
  LoginSession.all_whitespace (Login.rollNumber (Login.user st)) ∨
  LoginSession.all_whitespace (Login.name (Login.user st)).
Proof.
  unfold LoginSession.all_whitespace. rewrite <- !trim_empty_iff.
  destruct (decide (Login.trim (Login.rollNumber (Login.user st)) = ""))
    as [Hr|Hr];
    [|destruct (decide (Login.trim (Login.name (Login.user st)) = ""))
        as [Hn|Hn]].
  - rewrite (handleSubmit_blank st) by (by left). simpl. tauto.
  - rewrite (handleSubmit_blank st) by (by right). simpl. tauto.
  - rewrite (handleSubmit_filled st Hr Hn). simpl. split; [done|tauto].
Qed.

(** X22: the two inputs of the login form write independent members: the
    order of typing does not matter, typing touches neither the error
    nor the loading flag, and the request of the next submission carries
    the two texts as typed, untrimmed. *)
Theorem login_typing_then_submit (st : Login.State) (roll name : string) :
  let typed :=
    LoginSession.handleChange "name" name
      (LoginSession.handleChange "rollNumber" roll st) in
  typed = LoginSession.handleChange "rollNumber" roll
            (LoginSession.handleChange "name" name st) ∧
  typed = Login.mkLogin (Login.mkUser roll name) (Login.isLoading st)
            (Login.error st) ∧
  (Login.trim roll ≠ "" → Login.trim name ≠ "" →
     Login.createUser_calls (Login.handleSubmit typed)
     = [Login.mkUser roll name]).
Proof.
  intros typed.
  assert (typed = Login.mkLogin (Login.mkUser roll name) (Login.isLoading st)
                    (Login.error st)) as Heq by done.
  split; [done|]. split; [done|].
  intros Hr Hn. rewrite Heq.
  pose proof (handleSubmit_filled
                (Login.mkLogin (Login.mkUser roll name) (Login.isLoading st)
                   (Login.error st)) Hr Hn) as Hsub.
  by rewrite Hsub.
Qed.

Lemma login_typing_then_submit_witness :
  Login.createUser_calls
    (Login.handleSubmit
       (LoginSession.handleChange "name" "Asha "
          (LoginSession.handleChange "rollNumber" " 42" Login.initialState)))
  = [Login.mkUser " 42" "Asha "].
Proof.
  destruct (login_typing_then_submit Login.initialState " 42" "Asha ")
    as (_ & _ & H).
  apply H; vm_compute; discriminate.
Defined.
